(** * ssphys: record and object model of the VSS physical-file reader

    A shallow embedding of the SSPhysLib record layer ([SSRecord.h],
    [SSTypes.cpp], [SSBranchFileObject.h]) and of the [validate] command
    ([ValidateCommand.cpp]), together with the properties stated for them in
    the design specification.

    Conventions.
    - C++ integers are [Z]; a conversion to a fixed-width type is written out
      ([to_unsigned], [to_signed]).
    - Raw memory is [list byte]; a read that leaves the buffer is [None].
    - [char type[2]] is a pair of bytes; [std::string] is [string].
    - Platform constants that the headers under study do not fix (width of
      [off_t] and [size_t], [sizeof (RECORD_HEADER)], the layout of [BF]) are
      [Section] variables. *)

From Stdlib Require Import ZArith List Sorted String Ascii Bool Lia.
From Stdlib.Strings Require Import Byte.
Import ListNotations.

Local Open Scope string_scope.
Local Open Scope list_scope.
Local Open Scope Z_scope.

(** ** Machine integers and raw memory *)

Module Mem.

(** Conversion of an integer to an unsigned type of [w] bits. *)
Definition to_unsigned (w : Z) (z : Z) : Z := z mod 2 ^ w.

(** Conversion of an integer to a signed (two's complement) type of [w] bits. *)
Definition to_signed (w : Z) (z : Z) : Z :=
  (z + 2 ^ (w - 1)) mod 2 ^ w - 2 ^ (w - 1).

(** Range of the C [int] of every platform the tool was built for. *)
Definition int_range (z : Z) : Prop := - 2 ^ 31 <= z < 2 ^ 31.

(** [a[i]] on an array of known extent: an index outside it has no value. *)
Definition array_read {A : Type} (a : list A) (i : Z) : option A :=
  if i <? 0 then None else nth_error a (Z.to_nat i).

(** The bytes [at .. at + n - 1] of a buffer; [None] when the range leaves
    the buffer. *)
Definition read_bytes (buf : list byte) (at_ n : Z) : option (list byte) :=
  if (0 <=? at_) && (0 <=? n) && (at_ + n <=? Z.of_nat (List.length buf))
  then Some (firstn (Z.to_nat n) (skipn (Z.to_nat at_) buf))
  else None.

(** Value of a little-endian sequence of bytes. *)
Fixpoint le_value (bs : list byte) : Z :=
  match bs with
  | [] => 0
  | b :: rest => Z.of_N (Byte.to_N b) + 256 * le_value rest
  end.

(** A [ulong32] stored at byte [at_] of a buffer (x86 byte order, the one the
    file format is written in). *)
Definition read_ulong32 (buf : list byte) (at_ : Z) : option Z :=
  option_map le_value (read_bytes buf at_ 4).

(** Characters of a C string: everything before the first NUL byte; [None]
    when the bytes end before a NUL is met. *)
Fixpoint c_str (bs : list byte) : option string :=
  match bs with
  | [] => None
  | b :: rest =>
      if Byte.eqb b Byte.x00 then Some EmptyString
      else option_map (String (ascii_of_byte b)) (c_str rest)
  end.

(** A NUL-terminated string starting at byte [at_] of a buffer, as the
    conversion of a [char] array to [std::string] reads it. *)
Definition read_c_str (buf : list byte) (at_ : Z) : option string :=
  if (0 <=? at_) && (at_ <=? Z.of_nat (List.length buf))
  then c_str (skipn (Z.to_nat at_) buf)
  else None.

(** Modelled from the spec: the macro [countof] comes from StdAfx.h, which is
    not among the sources.  It is taken as the usual quotient of two [sizeof],
    the number of elements as a [size_t]; with it a negative code compares as
    a large unsigned number, and the specification has negative codes map to
    ["unknown"]. *)
Definition countof {A : Type} (a : list A) : Z := Z.of_nat (List.length a).

End Mem.

(** ** SSTypes.cpp: the action table *)

Module SSTypes.
Import Mem.

(** [g_szActions], in declaration order. *)
Definition g_szActions : list string :=
  [ "Labeled";            (* = 0 *)
    "Created Project";    (* = 1 *)
    "Added Project";      (* = 2 *)
    "Added File";         (* = 3 *)
    "Destroyed Project";  (* = 4 *)
    "Destroyed File";     (* = 5 *)
    "Deleted Project";    (* = 6 *)
    "Deleted File";       (* = 7 *)
    "Recovered Project";  (* = 8 *)
    "Recovered File";     (* = 9 *)
    "Renamed Project";    (* = 10 *)
    "Renamed File";       (* = 11 *)
    "Moved Project From"; (* = 12 *)
    "Moved Project To";   (* = 13 *)
    "Shared File";        (* = 14 *)
    "Branch File";        (* = 15 *)
    "Created File";       (* = 16 *)
    "Checked In";         (* = 17 *)
    "Action 18";          (* missing action 18 *)
    "RollBack";           (* = 19 *)
    "Archive Versions of File";  (* = 20 *)
    "Action 19";          (* missing action 19 *)
    "Archive File";       (* = 22 *)
    "Archive Project";    (* = 23 *)
    "Restored File";      (* = 24 *)
    "Restored Project";   (* = 25 *)
    (* --- pseudo actions --- *)
    "Pinned File";        (* = 26 *)
    "Unpinned File"       (* = 27 *)
  ].

Section ActionToString.

(** Width of [size_t], the type of [countof (g_szActions)]. *)
Variable size_t_bits : Z.

(** [CAction::ActionToString].  The enumeration value [e] is promoted to
    [int] and then, for the comparison with the [size_t] element count,
    converted to [size_t]; the subscript uses [e] itself. *)
Definition ActionToString (e : Z) : option string :=
  if to_unsigned size_t_bits e <? countof g_szActions
  then array_read g_szActions e
  else Some "unknown".

End ActionToString.

End SSTypes.

(** ** SSRecord.h: records of a physical file *)

Module SSRecordH.
Import Mem.

Inductive eType : Type :=
| eNone
| eItemRecord      (* DH, DH_PROJECT, DH_FILE *)
| eHistoryRecord   (* EL *)
| eCommentRecord   (* MC *)
| eCheckOutRecord  (* CF *)
| eParentFolder    (* PF *)
| eFileDelta       (* FD *)
| eNamesCache      (* HN *)
| eNameCacheEntry  (* SN *)
| eProjectEntry    (* JP *)
| eUsersHeader     (* HU *)
| eUser            (* UU *)
| eBranchFile      (* BF *)
| eUnknown.

Definition eType_eqb (a b : eType) : bool :=
  match a, b with
  | eNone, eNone | eItemRecord, eItemRecord | eHistoryRecord, eHistoryRecord
  | eCommentRecord, eCommentRecord | eCheckOutRecord, eCheckOutRecord
  | eParentFolder, eParentFolder | eFileDelta, eFileDelta
  | eNamesCache, eNamesCache | eNameCacheEntry, eNameCacheEntry
  | eProjectEntry, eProjectEntry | eUsersHeader, eUsersHeader
  | eUser, eUser | eBranchFile, eBranchFile | eUnknown, eUnknown => true
  | _, _ => false
  end.

(** Modelled from the spec: [RECORD_HEADER] is declared in SSTypes.h, which is
    not among the sources.  The specification gives it a two-byte type tag and
    a length field holding the payload size; [SSRecord.h] reads the tag as
    [m_Header.type]. *)
Record RECORD_HEADER : Type := {
  type : byte * byte;
  payload_length : Z
}.

(** [SSFileImpPtr]: the shared, read-only physical file a record was read
    from, as its bytes. *)
Definition SSFileImp : Type := list byte.

(** The data members of [SSRecord]; [m_pBuffer] is the buffer the record
    owns, as its bytes. *)
Record SSRecord : Type := {
  m_Header : RECORD_HEADER;
  m_pBuffer : list byte;
  m_Len : Z;
  m_Offset : Z;
  m_FileImpPtr : option SSFileImp
}.

(** The two characters of a tag as a [std::string] of length two. *)
Definition tag_string (t : byte * byte) : string :=
  String (ascii_of_byte (fst t)) (String (ascii_of_byte (snd t)) EmptyString).

(** The tag written with the two characters of [s], for table entries. *)
Definition tag_of (s : string) : byte * byte :=
  match list_byte_of_string s with
  | c0 :: c1 :: _ => (c0, c1)
  | [c0] => (c0, Byte.x00)
  | [] => (Byte.x00, Byte.x00)
  end.

(** *** Inline members of [SSRecord]

    Both overloads of [GetBuffer] return [m_pBuffer]; what tells them apart,
    the pointer being writable, is modelled in [Shared]. *)

Definition GetBuffer (r : SSRecord) : list byte := m_pBuffer r.
Definition GetLen (r : SSRecord) : Z := m_Len r.
Definition GetOffset (r : SSRecord) : Z := m_Offset r.
Definition GetRecordType (r : SSRecord) : string := tag_string (type (m_Header r)).
Definition GetFileImp (r : SSRecord) : option SSFileImp := m_FileImpPtr r.

Section Platform.

(** Width of [off_t] in bits, and [sizeof (RECORD_HEADER)]. *)
Variable off_bits : Z.
Variable sizeof_header : Z.

(** [m_Offset + m_Len + sizeof (m_Header)], returned as [off_t]. *)
Definition GetNextOffset (r : SSRecord) : Z :=
  to_signed off_bits (m_Offset r + m_Len r + sizeof_header).

End Platform.

(** *** Members declared in [SSRecord.h] and defined elsewhere *)

(** The tags of the known record types, as the comments of [eType] give
    them. *)
Definition type_table : list (string * eType) :=
  [ ("DH", eItemRecord);
    ("EL", eHistoryRecord);
    ("MC", eCommentRecord);
    ("CF", eCheckOutRecord);
    ("PF", eParentFolder);
    ("FD", eFileDelta);
    ("HN", eNamesCache);
    ("SN", eNameCacheEntry);
    ("JP", eProjectEntry);
    ("HU", eUsersHeader);
    ("UU", eUser);
    ("BF", eBranchFile) ].

Fixpoint lookup_type (tbl : list (string * eType)) (tag : string) : eType :=
  match tbl with
  | [] => eUnknown
  | (k, v) :: rest => if String.eqb k tag then v else lookup_type rest tag
  end.

(** Modelled from the spec: [SSRecord::StringToType] is only declared in
    [SSRecord.h]; its body (SSRecord.cpp) is not among the sources.  The
    specification makes it the lookup of the tag in the fixed table, with
    [eUnknown] for a tag that is not registered. *)
Definition StringToType (t : byte * byte) : eType :=
  lookup_type type_table (tag_string t).

End SSRecordH.

(** ** The record reader

    The reader itself (SSFiles.h, SSFiles.cpp) is not among the sources; only
    its use in [SSRecord.h] ([SSFileImpPtr], the private constructor
    [SSRecord (filePtr, offset)]) and in [ValidateCommand.cpp] is. *)

Module SSFiles.
Import Mem SSRecordH.

(** Modelled from the spec: raw file access, [readAt (offset, length)].  A
    request that is not wholly inside the file (a negative offset or length
    included) yields no bytes. *)
Definition readAt (f : SSFileImp) (offset len : Z) : option (list byte) :=
  read_bytes f offset len.

Definition file_length (f : SSFileImp) : Z := Z.of_nat (List.length f).

Inductive read_result : Type :=
| EndOfFile
| Truncated (offset : Z)
| Rec (r : SSRecord).

Inductive scan_end : Type :=
| Done
| TruncatedRecord (offset : Z)
| OutOfFuel.

Section Reader.

Variable off_bits : Z.
Variable sizeof_header : Z.

(** The bytes of a header seen as a [RECORD_HEADER]; fixed by the declaration
    of the structure. *)
Variable decode_header : list byte -> RECORD_HEADER.

(** Modelled from the spec: the reader's step, which is also the private
    constructor [SSRecord (filePtr, offset)].  It reads a header at [offset];
    when fewer than header-size bytes remain the sequence ends; it then reads
    [length] payload bytes, and when they are not all there the record is
    reported truncated at [offset] instead of being returned in part. *)
Definition read_record (f : SSFileImp) (offset : Z) : read_result :=
  match readAt f offset sizeof_header with
  | None => EndOfFile
  | Some hb =>
      let h := decode_header hb in
      match readAt f (offset + sizeof_header) (payload_length h) with
      | None => Truncated offset
      | Some p =>
          Rec {| m_Header := h;
                 m_pBuffer := p;
                 m_Len := payload_length h;
                 m_Offset := offset;
                 m_FileImpPtr := Some f |}
      end
  end.

(** Modelled from the spec: [scan], the forward walk over the records, each
    step advancing to the record's [GetNextOffset].  [fuel] bounds the number
    of steps. *)
Fixpoint scan_from (fuel : nat) (f : SSFileImp) (offset : Z)
  : list SSRecord * scan_end :=
  match fuel with
  | O => ([], OutOfFuel)
  | S k =>
      match read_record f offset with
      | EndOfFile => ([], Done)
      | Truncated o => ([], TruncatedRecord o)
      | Rec r =>
          let rest := scan_from k f (GetNextOffset off_bits sizeof_header r) in
          (r :: fst rest, snd rest)
      end
  end.

(** Modelled from the spec: [scan] starts at the first byte.  Every record
    takes at least one byte of the file, so one step more than the file has
    bytes is enough. *)
Definition scan (f : SSFileImp) : list SSRecord * scan_end :=
  scan_from (S (List.length f)) f 0.

(** *** Files built from a list of records *)

(** One record of a constructed file: the bytes of its header and its
    payload. *)
Definition entry : Type := (list byte * list byte)%type.

Definition entry_bytes (e : entry) : list byte := fst e ++ snd e.

Definition build_file (l : list entry) : SSFileImp :=
  List.concat (map entry_bytes l).

(** The header has the size of [RECORD_HEADER] and declares the length of the
    payload that follows it. *)
Definition entry_ok (e : entry) : bool :=
  (Z.of_nat (List.length (fst e)) =? sizeof_header)
  && (payload_length (decode_header (fst e)) =? Z.of_nat (List.length (snd e))).

(** The record the reader is expected to produce for an entry placed at
    [offset] of file [f]. *)
Definition record_at (f : SSFileImp) (offset : Z) (e : entry) : SSRecord :=
  {| m_Header := decode_header (fst e);
     m_pBuffer := snd e;
     m_Len := Z.of_nat (List.length (snd e));
     m_Offset := offset;
     m_FileImpPtr := Some f |}.

(** The records of a layout laid out back to back from [offset]. *)
Fixpoint layout_records (f : SSFileImp) (offset : Z) (l : list entry)
  : list SSRecord :=
  match l with
  | [] => []
  | e :: rest =>
      record_at f offset e
      :: layout_records f (offset + sizeof_header + Z.of_nat (List.length (snd e))) rest
  end.

End Reader.

End SSFiles.

(** ** SSBranchFileObject.h: the branch-file object *)

Module SSBranchFileObjectH.
Import Mem SSRecordH SSFiles.

(** Layout of [struct BF] (SSTypes.h, not among the sources): the byte
    offsets of its members [previousOffset] (a [ulong32]) and [branchToPhys]
    (a [char] array), and its size. *)
Record BF_layout : Type := {
  offsetof_previousOffset : Z;
  offsetof_branchToPhys : Z;
  sizeof_BF : Z
}.

(** Both members lie inside the structure. *)
Definition BF_layout_ok (L : BF_layout) : bool :=
  (0 <=? offsetof_previousOffset L)
  && (offsetof_previousOffset L + 4 <=? sizeof_BF L)
  && (0 <=? offsetof_branchToPhys L)
  && (offsetof_branchToPhys L <? sizeof_BF L).

(** An [SSObject] of class [SSBranchFileObject]: the record it shares, and
    the mark the specification gives an object whose payload is too short. *)
Record SSBranchFileObject : Type := {
  m_pRecord : SSRecord;
  invalid : bool
}.

(** The buffer of a record holds exactly [m_Len] bytes. *)
Definition buffer_ok (r : SSRecord) : bool :=
  Z.of_nat (List.length (GetBuffer r)) =? GetLen r.

(** Modelled from the spec: the answers of the chain resolver, the object
    that was found, [NotFound] when there is no predecessor, and its two
    errors, each with the offset it concerns. *)
Inductive resolution : Type :=
| Found (o : SSBranchFileObject)
| NotFound
| BrokenChain (offset : Z)
| ChainTooLong (offset : Z).

Section Layout.

Variable sizeof_header : Z.
Variable decode_header : list byte -> RECORD_HEADER.
Variable L : BF_layout.

(** Modelled from the spec: [SSObject::GetData] (SSObject.h is not among the
    sources) is the view over the payload bytes of the object's record. *)
Definition SSObject_GetData (o : SSBranchFileObject) : list byte :=
  GetBuffer (m_pRecord o).

(** [reinterpret_cast<const BF*> (SSObject::GetData ())]: the same bytes. *)
Definition GetData (o : SSBranchFileObject) : list byte := SSObject_GetData o.

(** [GetData ()->previousOffset]: four bytes at the member's offset, whatever
    the length of the payload. *)
Definition GetPreviousOffset (o : SSBranchFileObject) : option Z :=
  read_ulong32 (GetData o) (offsetof_previousOffset L).

(** [GetData ()->branchToPhys] converted to [std::string]: the characters
    from the member's offset up to the first NUL byte. *)
Definition GetBranchToPhys (o : SSBranchFileObject) : option string :=
  read_c_str (GetData o) (offsetof_branchToPhys L).

(** Modelled from the spec: the constructor [SSBranchFileObject (pRecord)]
    (SSBranchFileObject.cpp is not among the sources).  A payload shorter than
    the fixed layout gives an object marked invalid instead of an error. *)
Definition new_SSBranchFileObject (r : SSRecord) : SSBranchFileObject :=
  {| m_pRecord := r; invalid := GetLen r <? sizeof_BF L |}.

(** Modelled from the spec: a branch-file record is terminal when its
    [previousOffset] is its own offset, the record the specification calls
    self-terminal; it ends a chain and has no predecessor. *)
Definition is_terminal (o : SSBranchFileObject) (p : Z) : bool :=
  p =? GetOffset (m_pRecord o).

(** Modelled from the spec: [GetPrevious] is only declared in the header.
    A terminal object has no predecessor, [NotFound].  Otherwise the record
    at [previousOffset] of the same physical file is read again and its
    object rebuilt; it has to be a branch-file record, terminal or not, and
    an offset outside the file or one that yields no well-formed record
    breaks the chain.  The outer [option] is the read of [previousOffset]
    itself. *)
Definition GetPrevious (o : SSBranchFileObject) : option resolution :=
  match GetPreviousOffset o with
  | None => None
  | Some p =>
      Some
        (if is_terminal o p then NotFound
         else
           match GetFileImp (m_pRecord o) with
           | None => BrokenChain p
           | Some f =>
               match read_record sizeof_header decode_header f p with
               | Rec r =>
                   if eType_eqb (StringToType (type (m_Header r))) eBranchFile
                   then Found (new_SSBranchFileObject r)
                   else BrokenChain p
               | EndOfFile | Truncated _ => BrokenChain p
               end
           end)
  end.

(** Modelled from the spec: the bound on the hops of a walk, the size of the
    file over the size of the smallest record, a header without payload. *)
Definition max_hops (f : SSFileImp) : nat :=
  Z.to_nat (file_length f / sizeof_header).

(** Modelled from the spec: the walk along the chain.  It collects the
    predecessors of [o], nearest first, and ends with [NotFound] at a
    terminal object, with [BrokenChain] at a broken link, and with
    [ChainTooLong] when a further predecessor exists after [hops] of them
    were taken. *)
Fixpoint walk (hops : nat) (o : SSBranchFileObject)
  : option (list SSBranchFileObject * resolution) :=
  match GetPrevious o with
  | None => None
  | Some (Found o') =>
      match hops with
      | O => Some ([], ChainTooLong (GetOffset (m_pRecord o')))
      | S k =>
          option_map (fun rest => (o' :: fst rest, snd rest)) (walk k o')
      end
  | Some stop => Some ([], stop)
  end.

(** Modelled from the spec: the ancestry of an object, walked with the bound
    of its file. *)
Definition ancestry (o : SSBranchFileObject)
  : option (list SSBranchFileObject * resolution) :=
  match GetFileImp (m_pRecord o) with
  | Some f => walk (max_hops f) o
  | None => walk 0 o
  end.

End Layout.

End SSBranchFileObjectH.

(** ** ValidateCommand.cpp: the [validate] command *)

Module ValidateCommand.

(** Result of a call that may leave through an exception. *)
Inductive outcome (E A : Type) : Type :=
| Returned (a : A)
| Thrown (e : E).
Arguments Returned {E A} a.
Arguments Thrown {E A} e.

Section Execute.

(** Exceptions, [SSRecordFile] objects, and the state the validation reports
    into. *)
Variables E File W : Type.

(** [SSRecordFile::MakeFile] (SSFiles.h): the new file object, [None] for a
    null pointer. *)
Variable MakeFile : string -> outcome E (option File).

(** [SSRecordFile::Validate]. *)
Variable Validate : File -> W -> outcome E W.

(** [CValidateCommand::Execute]; the options are not used. *)
Definition Execute (arg : string) (w : W) : outcome E W :=
  match MakeFile arg with
  | Thrown e => Thrown e
  | Returned pFile =>
      match pFile with
      | Some f => Validate f w
      | None => Returned w
      end
  end.

End Execute.

End ValidateCommand.

(** ** Records shared between objects and consumers

    Objects and consumers reach a record through an [SSRecordPtr], a shared
    pointer to a record that is not [const].  What they can do with it is a
    program over the store of records: read the members of the record behind
    a pointer, write to an output of their own, and store a byte through a
    [byte*]. *)

Module Shared.
Import Mem SSRecordH SSFiles SSBranchFileObjectH.

Definition SSRecordPtr : Type := nat.

(** [const byte*] and [byte*] into the buffer of the record behind a
    pointer. *)
Inductive const_byte_ptr : Type := ConstBuffer (p : SSRecordPtr).
Inductive byte_ptr : Type := Buffer (p : SSRecordPtr).

Record world : Type := {
  records : list SSRecord;   (* the records behind the shared pointers *)
  output : list string       (* what consumers have written *)
}.

Inductive prog (A : Type) : Type :=
| Ret (a : A)
| Load (p : SSRecordPtr) (k : SSRecord -> prog A)           (* read [*p] *)
| Emit (x : string) (k : prog A)                            (* write output *)
| Store (q : byte_ptr) (i : nat) (b : byte) (k : prog A).   (* [q[i] = b] *)
Arguments Ret {A} a.
Arguments Load {A} p k.
Arguments Emit {A} x k.
Arguments Store {A} q i b k.

Fixpoint bind {A B : Type} (m : prog A) (f : A -> prog B) : prog B :=
  match m with
  | Ret a => f a
  | Load p k => Load p (fun r => bind (k r) f)
  | Emit x k => Emit x (bind k f)
  | Store q i b k => Store q i b (bind k f)
  end.

Fixpoint set_nth {A : Type} (l : list A) (i : nat) (a : A) : list A :=
  match l, i with
  | [], _ => []
  | _ :: rest, O => a :: rest
  | x :: rest, S j => x :: set_nth rest j a
  end.

(** The record with byte [i] of its buffer set to [b]. *)
Definition with_byte (r : SSRecord) (i : nat) (b : byte) : SSRecord :=
  {| m_Header := m_Header r;
     m_pBuffer := set_nth (m_pBuffer r) i b;
     m_Len := m_Len r;
     m_Offset := m_Offset r;
     m_FileImpPtr := m_FileImpPtr r |}.

(** Running a program.  [None] is undefined behaviour: a dangling pointer,
    or a store outside the buffer. *)
Fixpoint exec {A : Type} (m : prog A) (w : world) : option (A * world) :=
  match m with
  | Ret a => Some (a, w)
  | Load p k =>
      match nth_error (records w) p with
      | Some r => exec (k r) w
      | None => None
      end
  | Emit x k => exec k {| records := records w; output := output w ++ [x] |}
  | Store (Buffer p) i b k =>
      match nth_error (records w) p with
      | Some r =>
          if (i <? List.length (m_pBuffer r))%nat
          then exec k {| records := set_nth (records w) p (with_byte r i b);
                         output := output w |}
          else None
      | None => None
      end
  end.

(** Programs that store nothing: what code can do that reaches the records
    through [const] members only. *)
Inductive read_only {A : Type} : prog A -> Prop :=
| read_only_Ret (a : A) : read_only (Ret a)
| read_only_Load (p : SSRecordPtr) (k : SSRecord -> prog A) :
    (forall r, read_only (k r)) -> read_only (Load p k)
| read_only_Emit (x : string) (k : prog A) :
    read_only k -> read_only (Emit x k).

(** *** The inline members as programs *)

(** A member that returns a value computed from the data members of
    [*this]: [GetLen], [GetOffset], [GetNextOffset], [GetRecordType],
    [GetFileImp]. *)
Definition member {A : Type} (f : SSRecord -> A) (this : SSRecordPtr) : prog A :=
  Load this (fun r => Ret (f r)).

(** [const byte* GetBuffer () const] and [byte* GetBuffer ()]: both return
    [m_pBuffer], the second as a pointer that can be stored through. *)
Definition GetBuffer_const (this : SSRecordPtr) : prog const_byte_ptr :=
  Load this (fun _ => Ret (ConstBuffer this)).

Definition GetBuffer (this : SSRecordPtr) : prog byte_ptr :=
  Load this (fun _ => Ret (Buffer this)).

(** [*q] read through a [const byte*]: the bytes of the buffer. *)
Definition read_buffer (q : const_byte_ptr) : prog (list byte) :=
  match q with ConstBuffer p => member SSRecordH.GetBuffer p end.

(** An object in the store: its [SSRecordPtr] and its mark. *)
Record shared_object : Type := {
  o_pRecord : SSRecordPtr;
  o_invalid : bool
}.

(** A [const] accessor of the object ([GetData], [GetPreviousOffset],
    [GetBranchToPhys]) applied to the object as it stands in the store. *)
Definition accessor {A : Type} (f : SSBranchFileObject -> A) (o : shared_object)
  : prog A :=
  Load (o_pRecord o)
       (fun r => Ret (f {| m_pRecord := r; invalid := o_invalid o |})).

(** [Accept]: the object hands itself and the context to the [Apply] of the
    visitor. *)
Definition Accept {C A : Type} (Apply : shared_object -> option C -> prog A)
           (o : shared_object) (pCtx : option C) : prog A :=
  Apply o pCtx.

End Shared.

(** ** A concrete platform

    The values the model is run on: 32-bit [off_t] and [size_t], a header of
    two tag bytes followed by a 32-bit little-endian length, and a [BF] of a
    [ulong32] followed by six characters. *)

Module Sample.
Import Mem SSRecordH SSFiles SSBranchFileObjectH.

Definition off_bits : Z := 32.
Definition size_t_bits : Z := 32.
Definition sizeof_header : Z := 6.

Definition decode_header (hb : list byte) : RECORD_HEADER :=
  {| type := (nth 0 hb Byte.x00, nth 1 hb Byte.x00);
     payload_length := le_value (firstn 4 (skipn 2 hb)) |}.

Definition BF : BF_layout :=
  {| offsetof_previousOffset := 0; offsetof_branchToPhys := 4; sizeof_BF := 10 |}.

Definition bytes (s : string) : list byte := list_byte_of_string s.

Definition zeros (n : nat) : list byte := repeat Byte.x00 n.

(** A branch-file record of length 10 with [previousOffset = 0], then a
    record with the unregistered tag [ZZ] and four payload bytes. *)
Definition two_records : list entry :=
  [ (bytes "BF" ++ [Byte.x0a; Byte.x00; Byte.x00; Byte.x00],
     zeros 4 ++ bytes "AAAAA" ++ zeros 1);
    (bytes "ZZ" ++ [Byte.x04; Byte.x00; Byte.x00; Byte.x00],
     bytes "wxyz") ].

(** A branch-file record at offset 16 whose [previousOffset] is 0, after a
    branch-file record at offset 0. *)
Definition chained : list entry :=
  [ (bytes "BF" ++ [Byte.x0a; Byte.x00; Byte.x00; Byte.x00],
     zeros 4 ++ bytes "AAAAA" ++ zeros 1);
    (bytes "BF" ++ [Byte.x0a; Byte.x00; Byte.x00; Byte.x00],
     zeros 4 ++ bytes "BAAAA" ++ zeros 1) ].

(** A header declaring 100 payload bytes in front of only 40. *)
Definition short_file : SSFileImp :=
  bytes "EL" ++ [Byte.x64; Byte.x00; Byte.x00; Byte.x00] ++ zeros 40.

Definition chained_file : SSFileImp := build_file chained.

(** The two records of [chained_file], as the reader produces them. *)
Definition chained_first : SSRecord :=
  record_at decode_header chained_file 0 (nth 0 chained ([], [])).

Definition chained_second : SSRecord :=
  record_at decode_header chained_file 16 (nth 1 chained ([], [])).

(** A store holding the first of them, and no output yet. *)
Definition one_record : Shared.world :=
  {| Shared.records := [chained_first]; Shared.output := [] |}.

(** A branch-file payload of the full size in which no byte is NUL. *)
Definition unterminated : SSRecord :=
  {| m_Header := {| type := tag_of "BF"; payload_length := 10 |};
     m_pBuffer := bytes "AAAAAAAAAA";
     m_Len := 10;
     m_Offset := 0;
     m_FileImpPtr := None |}.

End Sample.

(** ** Runs of records and stored integers *)

Module Layout.
Import Mem SSRecordH.

(** The bytes of [v] as the first [n] bytes of its little-endian form, the
    way x86 stores an unsigned integer of [n] bytes. *)
Fixpoint le_bytes (n : nat) (v : Z) : list byte :=
  match n with
  | O => []
  | S k =>
      match Byte.of_N (Z.to_N (v mod 256)) with
      | Some b => b :: le_bytes k (v / 256)
      | None => Byte.x00 :: le_bytes k (v / 256)
      end
  end.

Section Platform.

Variable off_bits : Z.
Variable sizeof_header : Z.

(** [m_Offset + m_Len + sizeof (m_Header)] before its conversion to [off_t]. *)
Definition end_of (r : SSRecord) : Z := GetOffset r + GetLen r + sizeof_header.

(** The sum above is a value of [off_t]. *)
Definition fits (r : SSRecord) : bool :=
  (- 2 ^ (off_bits - 1) <=? end_of r) && (end_of r <? 2 ^ (off_bits - 1)).

(** Each record of the run starts at the [GetNextOffset] of the one before
    it. *)
Fixpoint chained (rs : list SSRecord) : bool :=
  match rs with
  | [] => true
  | r :: rest =>
      match rest with
      | [] => true
      | r' :: _ =>
          (GetOffset r' =? GetNextOffset off_bits sizeof_header r) && chained rest
      end
  end.

(** Bytes the records of a run take, headers included. *)
Fixpoint span (rs : list SSRecord) : Z :=
  match rs with
  | [] => 0
  | r :: rest => GetLen r + sizeof_header + span rest
  end.

(** [GetNextOffset] of the last record of a run that starts at [start]. *)
Fixpoint last_next (start : Z) (rs : list SSRecord) : Z :=
  match rs with
  | [] => start
  | r :: rest => last_next (GetNextOffset off_bits sizeof_header r) rest
  end.

End Platform.

End Layout.

(** More values to run the model on. *)

Module Cases.
Import Mem SSRecordH SSFiles SSBranchFileObjectH.

(** The two records of [Sample.chained_file], in file order. *)
Definition run : list SSRecord := [Sample.chained_first; Sample.chained_second].

(** A record of ten bytes that starts sixteen bytes below [2 ^ 31]. *)
Definition high : SSRecord :=
  {| m_Header := {| type := tag_of "FD"; payload_length := 10 |};
     m_pBuffer := Sample.zeros 10;
     m_Len := 10;
     m_Offset := 2 ^ 31 - 16;
     m_FileImpPtr := None |}.

(** A branch-file object whose name runs over the six characters of
    [branchToPhys] and ends at the NUL that follows them. *)
Definition long_name : SSBranchFileObject :=
  {| m_pRecord :=
       {| m_Header := {| type := tag_of "BF"; payload_length := 13 |};
          m_pBuffer := Sample.zeros 4 ++ Sample.bytes "AAAAAAAA" ++ Sample.zeros 1;
          m_Len := 13;
          m_Offset := 0;
          m_FileImpPtr := None |};
     invalid := false |}.

(** A branch-file object at offset 32 whose payload starts with the stored
    form of 16. *)
Definition stored : SSBranchFileObject :=
  {| m_pRecord :=
       {| m_Header := {| type := tag_of "BF"; payload_length := 10 |};
          m_pBuffer := Layout.le_bytes 4 16 ++ Sample.bytes "AAAAA" ++ Sample.zeros 1;
          m_Len := 10;
          m_Offset := 32;
          m_FileImpPtr := None |};
     invalid := false |}.

(** A branch-file entry for the sample platform: ten payload bytes, the
    stored [previousOffset] then a name of five characters. *)
Definition bf_entry (previous : Z) (name : string) : entry :=
  (Sample.bytes "BF" ++ [Byte.x0a; Byte.x00; Byte.x00; Byte.x00],
   Layout.le_bytes 4 previous ++ Sample.bytes name ++ Sample.zeros 1).

(** Three branch-file records at offsets 0, 16 and 32: the first is
    terminal, the second points at the first, the third at the second. *)
Definition chain3 : list entry :=
  [bf_entry 0 "AAAAA"; bf_entry 0 "BAAAA"; bf_entry 16 "CAAAA"].

Definition chain3_file : SSFileImp := build_file chain3.

(** The object of the [i]-th record of [chain3_file], which starts at
    [offset]. *)
Definition chain3_object (i : nat) (offset : Z) : SSBranchFileObject :=
  new_SSBranchFileObject Sample.BF
    (record_at Sample.decode_header chain3_file offset (nth i chain3 ([], []))).

(** A corrupt file: two branch-file records that point at each other. *)
Definition cycle : list entry := [bf_entry 16 "XAAAA"; bf_entry 0 "YAAAA"].

Definition cycle_file : SSFileImp := build_file cycle.

Definition cycle_object : SSBranchFileObject :=
  new_SSBranchFileObject Sample.BF
    (record_at Sample.decode_header cycle_file 0 (nth 0 cycle ([], []))).

End Cases.

(** * Properties *)

(** ** Machine integers *)

Module MemFacts.
Import Mem.

Lemma to_unsigned_small w z : 0 <= z < 2 ^ w -> to_unsigned w z = z.
Proof. intros H. unfold to_unsigned. now apply Z.mod_small. Qed.

Lemma to_unsigned_neg w z : 0 <= w -> - 2 ^ w <= z < 0 -> to_unsigned w z = z + 2 ^ w.
Proof.
  intros Hw H. unfold to_unsigned.
  rewrite <- (Z.mod_small (z + 2 ^ w) (2 ^ w)) by lia.
  rewrite <- (Z_mod_plus_full z 1 (2 ^ w)). f_equal. lia.
Qed.

Lemma to_signed_small w z :
  0 < w -> - 2 ^ (w - 1) <= z < 2 ^ (w - 1) -> to_signed w z = z.
Proof.
  intros Hw H. unfold to_signed.
  assert (E : 2 ^ w = 2 * 2 ^ (w - 1)).
  { replace w with (Z.succ (w - 1)) at 1 by lia. apply Z.pow_succ_r. lia. }
  rewrite Z.mod_small by lia. lia.
Qed.

Lemma pow2_le_mono a b : 0 <= a <= b -> 2 ^ a <= 2 ^ b.
Proof. intros H. apply Z.pow_le_mono_r; lia. Qed.

End MemFacts.

(** ** The action table *)

Module ActionProps.
Import Mem MemFacts SSTypes.

Section Width.

Variable size_t_bits : Z.
Hypothesis size_t_wide : 32 <= size_t_bits.

Lemma pow_size_t_bits : 2 ^ 32 <= 2 ^ size_t_bits.
Proof. apply pow2_le_mono. lia. Qed.

(** For an [int], the unsigned comparison with the element count succeeds
    exactly on the indices of the table. *)
Lemma in_table_iff (e : Z) :
  int_range e ->
  (to_unsigned size_t_bits e <? countof g_szActions) = ((0 <=? e) && (e <? 28)).
Proof.
  intros [Hlo Hhi]. pose proof pow_size_t_bits as Hp.
  change (countof g_szActions) with 28.
  change (2 ^ 31) with 2147483648 in *. change (2 ^ 32) with 4294967296 in *.
  destruct (Z_lt_le_dec e 0) as [Hneg | Hpos].
  - rewrite to_unsigned_neg by lia.
    destruct (Z.ltb_spec (e + 2 ^ size_t_bits) 28);
      destruct (Z.leb_spec 0 e); simpl; try reflexivity; lia.
  - rewrite to_unsigned_small by lia.
    destruct (Z.leb_spec 0 e); [simpl; reflexivity | lia].
Qed.

Lemma ActionToString_outside (e : Z) :
  int_range e -> e < 0 \/ 27 < e ->
  ActionToString size_t_bits e = Some "unknown".
Proof.
  intros Hr Ho. unfold ActionToString. rewrite (in_table_iff e Hr).
  destruct (Z.leb_spec 0 e); destruct (Z.ltb_spec e 28); simpl;
    try reflexivity; lia.
Qed.

Lemma ActionToString_inside (e : Z) :
  0 <= e <= 27 ->
  ActionToString size_t_bits e = nth_error g_szActions (Z.to_nat e).
Proof.
  intros He. unfold ActionToString. rewrite in_table_iff.
  - destruct (Z.leb_spec 0 e); destruct (Z.ltb_spec e 28); simpl; try lia.
    unfold array_read. destruct (Z.ltb_spec e 0); [lia | reflexivity].
  - unfold int_range. change (2 ^ 31) with 2147483648. lia.
Qed.

(** C3.  [ActionToString] is defined on every [int]: it always yields a label
    and never indexes outside the table; a negative code or a code above 27
    yields ["unknown"], and a code of the table yields its entry. *)
Theorem ActionToString_total (e : Z) :
  int_range e ->
  (exists s, ActionToString size_t_bits e = Some s)
  /\ (e < 0 \/ 27 < e -> ActionToString size_t_bits e = Some "unknown")
  /\ (0 <= e <= 27 ->
      ActionToString size_t_bits e = nth_error g_szActions (Z.to_nat e)).
Proof.
  intros Hr. split; [| split].
  - destruct (Z_lt_le_dec e 0) as [Hn | Hp].
    + exists "unknown". apply ActionToString_outside; [exact Hr | now left].
    + destruct (Z_lt_le_dec 27 e) as [Hb | Hs].
      * exists "unknown". apply ActionToString_outside; [exact Hr | now right].
      * rewrite ActionToString_inside by lia.
        destruct (nth_error g_szActions (Z.to_nat e)) as [s |] eqn:E; [eauto |].
        apply nth_error_None in E. simpl in E. lia.
  - apply ActionToString_outside. exact Hr.
  - apply ActionToString_inside.
Qed.

(** C4, as the table has it.  The placeholder ["Action 18"] is the label of
    code 18; code 19 is ["RollBack"] and the second placeholder,
    ["Action 19"], is the label of code 21; the pseudo actions 26 and 27 are
    ["Pinned File"] and ["Unpinned File"]. *)
Theorem ActionToString_placeholders :
  ActionToString size_t_bits 18 = Some "Action 18"
  /\ ActionToString size_t_bits 19 = Some "RollBack"
  /\ ActionToString size_t_bits 21 = Some "Action 19"
  /\ ActionToString size_t_bits 26 = Some "Pinned File"
  /\ ActionToString size_t_bits 27 = Some "Unpinned File".
Proof.
  repeat split; rewrite ActionToString_inside by lia; reflexivity.
Qed.

End Width.

Lemma ActionToString_total_witness :
  32 <= Sample.size_t_bits /\ int_range (-1)
  /\ ActionToString Sample.size_t_bits (-1) = Some "unknown".
Proof.
  assert (W : 32 <= Sample.size_t_bits) by (vm_compute; discriminate).
  assert (R : int_range (-1)) by (unfold int_range; simpl; lia).
  split; [exact W | split; [exact R |]].
  destruct (ActionToString_total Sample.size_t_bits W (-1) R) as (_ & Hout & _).
  apply Hout. left. lia.
Defined.

Lemma ActionToString_placeholders_witness :
  32 <= Sample.size_t_bits
  /\ ActionToString Sample.size_t_bits 21 = Some "Action 19".
Proof.
  assert (W : 32 <= Sample.size_t_bits) by (vm_compute; discriminate).
  split; [exact W |].
  destruct (ActionToString_placeholders Sample.size_t_bits W) as (_ & _ & H & _).
  exact H.
Defined.

(** C4, as stated, fails at code 19: its label is ["RollBack"], not the
    placeholder. *)
Lemma ActionToString_19_is_not_a_placeholder :
  ~ (ActionToString Sample.size_t_bits 18 = Some "Action 18"
     /\ ActionToString Sample.size_t_bits 19 = Some "Action 19"
     /\ ActionToString Sample.size_t_bits 26 = Some "Pinned File"
     /\ ActionToString Sample.size_t_bits 27 = Some "Unpinned File").
Proof. intros (_ & H & _). vm_compute in H. discriminate H. Qed.

(** The whole table, code by code. *)
Example ActionToString_table :
  map (ActionToString Sample.size_t_bits)
      [-1; 0; 17; 18; 19; 20; 21; 22; 25; 26; 27; 28]
  = map Some
      [ "unknown"; "Labeled"; "Checked In"; "Action 18"; "RollBack";
        "Archive Versions of File"; "Action 19"; "Archive File";
        "Restored Project"; "Pinned File"; "Unpinned File"; "unknown" ].
Proof. vm_compute. reflexivity. Qed.

End ActionProps.

(** ** Record types and tags *)

Module RecordProps.
Import Mem MemFacts SSRecordH.

Lemma lookup_type_cases (tbl : list (string * eType)) (s : string) :
  lookup_type tbl s = eUnknown \/ In (s, lookup_type tbl s) tbl.
Proof.
  induction tbl as [| [k v] rest IH]; simpl.
  - now left.
  - destruct (String.eqb_spec k s) as [-> | Hne].
    + right. now left.
    + destruct IH as [IH | IH]; [now left | right; now right].
Qed.

Lemma lookup_type_unlisted (tbl : list (string * eType)) (s : string) :
  ~ In s (map fst tbl) -> lookup_type tbl s = eUnknown.
Proof.
  induction tbl as [| [k v] rest IH]; simpl; intros Hn.
  - reflexivity.
  - destruct (String.eqb_spec k s) as [-> | Hne].
    + exfalso. apply Hn. now left.
    + apply IH. intros Hin. apply Hn. now right.
Qed.

Lemma lookup_type_listed (tbl : list (string * eType)) (s : string) (k : eType) :
  NoDup (map fst tbl) -> In (s, k) tbl -> lookup_type tbl s = k.
Proof.
  induction tbl as [| [k0 v0] rest IH]; simpl; intros Hnd Hin.
  - contradiction.
  - inversion Hnd as [| ? ? Hnotin Hnd']; subst.
    destruct Hin as [Heq | Hin].
    + inversion Heq; subst. now rewrite String.eqb_refl.
    + destruct (String.eqb_spec k0 s) as [-> | Hne].
      * exfalso. apply Hnotin. apply (in_map fst) in Hin. exact Hin.
      * now apply IH.
Qed.

Lemma type_table_keys_NoDup : NoDup (map fst type_table).
Proof.
  simpl. repeat constructor; simpl; intros H;
    repeat (destruct H as [H | H]; [discriminate H |]); exact H.
Qed.

Lemma eNone_not_in_table (s : string) : ~ In (s, eNone) type_table.
Proof.
  simpl. intros H.
  repeat (destruct H as [H | H]; [discriminate H |]). exact H.
Qed.

(** C2.  [StringToType] gives every two-character tag a record type: the
    type the table lists for it, and [eUnknown] when the table does not list
    it; the twelve registered tags yield their types. *)
Theorem StringToType_total (t : byte * byte) :
  (exists k, StringToType t = k
             /\ (k = eUnknown \/ In (tag_string t, k) type_table))
  /\ (forall k, In (tag_string t, k) type_table -> StringToType t = k)
  /\ (~ In (tag_string t) (map fst type_table) -> StringToType t = eUnknown)
  /\ (StringToType (tag_of "DH") = eItemRecord
      /\ StringToType (tag_of "EL") = eHistoryRecord
      /\ StringToType (tag_of "MC") = eCommentRecord
      /\ StringToType (tag_of "CF") = eCheckOutRecord
      /\ StringToType (tag_of "PF") = eParentFolder
      /\ StringToType (tag_of "FD") = eFileDelta
      /\ StringToType (tag_of "HN") = eNamesCache
      /\ StringToType (tag_of "SN") = eNameCacheEntry
      /\ StringToType (tag_of "JP") = eProjectEntry
      /\ StringToType (tag_of "HU") = eUsersHeader
      /\ StringToType (tag_of "UU") = eUser
      /\ StringToType (tag_of "BF") = eBranchFile).
Proof.
  unfold StringToType. split; [| split; [| split]].
  - eexists. split; [reflexivity |]. apply lookup_type_cases.
  - intros k Hin. apply lookup_type_listed; [apply type_table_keys_NoDup | exact Hin].
  - apply lookup_type_unlisted.
  - repeat split; reflexivity.
Qed.

Example StringToType_unregistered :
  StringToType (tag_of "ZZ") = eUnknown
  /\ StringToType (tag_of "dh") = eUnknown
  /\ StringToType (Byte.x00, Byte.x00) = eUnknown.
Proof. repeat split; reflexivity. Qed.

Lemma tag_string_bytes (t : byte * byte) :
  list_byte_of_string (tag_string t) = [fst t; snd t].
Proof.
  unfold tag_string, list_byte_of_string.
  cbn [list_ascii_of_string map]. now rewrite !byte_of_ascii_of_byte.
Qed.

Lemma tag_of_tag_string (t : byte * byte) : tag_of (tag_string t) = t.
Proof. unfold tag_of. rewrite tag_string_bytes. now destruct t. Qed.

(** C10.  [GetRecordType] is the two raw tag bytes of the header as a string
    of exactly two characters, whatever the tag, registered or not: the tag
    of the header is read back from the string. *)
Theorem GetRecordType_raw_tag (r : SSRecord) :
  String.length (GetRecordType r) = 2%nat
  /\ list_byte_of_string (GetRecordType r)
     = [fst (type (m_Header r)); snd (type (m_Header r))]
  /\ tag_of (GetRecordType r) = type (m_Header r).
Proof.
  unfold GetRecordType. split; [reflexivity | split].
  - apply tag_string_bytes.
  - apply tag_of_tag_string.
Qed.

(** A record with an unregistered tag keeps it. *)
Example GetRecordType_unknown :
  let r := {| m_Header := {| type := tag_of "ZZ"; payload_length := 0 |};
              m_pBuffer := []; m_Len := 0; m_Offset := 0; m_FileImpPtr := None |} in
  StringToType (type (m_Header r)) = eUnknown /\ GetRecordType r = "ZZ".
Proof. split; reflexivity. Qed.

End RecordProps.

(** ** The record reader *)

Module ReaderProps.
Import Mem MemFacts SSRecordH SSFiles.

Lemma read_bytes_app (pre x suf : list byte) :
  read_bytes (pre ++ x ++ suf) (Z.of_nat (List.length pre)) (Z.of_nat (List.length x))
  = Some x.
Proof.
  unfold read_bytes. rewrite !length_app, !Nat2Z.id.
  replace ((0 <=? Z.of_nat (List.length pre))
           && (0 <=? Z.of_nat (List.length x))
           && (Z.of_nat (List.length pre) + Z.of_nat (List.length x)
               <=? Z.of_nat (List.length pre + (List.length x + List.length suf))))
    with true
    by (symmetry; rewrite !andb_true_iff, !Z.leb_le; lia).
  rewrite skipn_app, skipn_all, Nat.sub_diag. simpl.
  rewrite firstn_app, firstn_all, Nat.sub_diag. simpl.
  now rewrite app_nil_r.
Qed.

Lemma read_bytes_past_end (buf : list byte) (at_ n : Z) :
  Z.of_nat (List.length buf) - at_ < n -> read_bytes buf at_ n = None.
Proof.
  intros H. unfold read_bytes.
  destruct (Z.leb_spec (at_ + n) (Z.of_nat (List.length buf))); [lia |].
  now rewrite andb_false_r.
Qed.

Lemma read_bytes_inside (buf : list byte) (at_ n : Z) :
  0 <= at_ -> 0 <= n -> at_ + n <= Z.of_nat (List.length buf) ->
  read_bytes buf at_ n
  = Some (firstn (Z.to_nat n) (skipn (Z.to_nat at_) buf)).
Proof.
  intros H1 H2 H3. unfold read_bytes.
  destruct (Z.leb_spec 0 at_); [| lia].
  destruct (Z.leb_spec 0 n); [| lia].
  destruct (Z.leb_spec (at_ + n) (Z.of_nat (List.length buf))); [| lia].
  reflexivity.
Qed.

Lemma read_bytes_length (buf : list byte) (at_ n : Z) (bs : list byte) :
  read_bytes buf at_ n = Some bs -> Z.of_nat (List.length bs) = n.
Proof.
  unfold read_bytes.
  destruct (Z.leb_spec 0 at_); [| discriminate].
  destruct (Z.leb_spec 0 n); [| discriminate].
  destruct (Z.leb_spec (at_ + n) (Z.of_nat (List.length buf))); [| discriminate].
  simpl. intros E. inversion E; subst.
  rewrite length_firstn, length_skipn. lia.
Qed.

Lemma read_bytes_bounds (buf : list byte) (at_ n : Z) (bs : list byte) :
  read_bytes buf at_ n = Some bs ->
  0 <= at_ /\ 0 <= n /\ at_ + n <= Z.of_nat (List.length buf).
Proof.
  unfold read_bytes.
  destruct (Z.leb_spec 0 at_); [| discriminate].
  destruct (Z.leb_spec 0 n); [| discriminate].
  destruct (Z.leb_spec (at_ + n) (Z.of_nat (List.length buf))); [| discriminate].
  intros _. lia.
Qed.

Lemma build_file_cons (e : entry) (l : list entry) :
  build_file (e :: l) = fst e ++ snd e ++ build_file l.
Proof. unfold build_file, entry_bytes. simpl. now rewrite <- app_assoc. Qed.

Lemma build_file_app (l1 l2 : list entry) :
  build_file (l1 ++ l2) = build_file l1 ++ build_file l2.
Proof. unfold build_file. now rewrite map_app, concat_app. Qed.

Section Reader.

Variable off_bits : Z.
Variable sizeof_header : Z.
Variable decode_header : list byte -> RECORD_HEADER.
Hypothesis header_size_positive : 0 < sizeof_header.

Local Abbreviation read_record := (read_record sizeof_header decode_header).
Local Abbreviation scan_from := (scan_from off_bits sizeof_header decode_header).
Local Abbreviation scan := (scan off_bits sizeof_header decode_header).
Local Abbreviation entry_ok := (entry_ok sizeof_header decode_header).
Local Abbreviation layout_records := (layout_records sizeof_header decode_header).
Local Abbreviation GetNextOffset := (GetNextOffset off_bits sizeof_header).

(** *** One step *)

Lemma read_record_eof (f : SSFileImp) (offset : Z) :
  file_length f - offset < sizeof_header -> read_record f offset = EndOfFile.
Proof.
  intros H. unfold SSFiles.read_record, readAt.
  now rewrite read_bytes_past_end.
Qed.

Lemma read_record_truncated (f : SSFileImp) (offset : Z) :
  0 <= offset ->
  sizeof_header <= file_length f - offset ->
  file_length f - (offset + sizeof_header)
  < payload_length
      (decode_header (firstn (Z.to_nat sizeof_header) (skipn (Z.to_nat offset) f))) ->
  read_record f offset = Truncated offset.
Proof.
  intros H0 H1 H2. unfold SSFiles.read_record, readAt, file_length in *.
  rewrite read_bytes_inside by lia.
  now rewrite read_bytes_past_end.
Qed.

(** A record that is read lies inside the file and its buffer holds its
    [m_Len] bytes. *)
Lemma read_record_Rec (f : SSFileImp) (offset : Z) (r : SSRecord) :
  read_record f offset = Rec r ->
  GetOffset r = offset
  /\ 0 <= offset
  /\ 0 <= GetLen r
  /\ offset + sizeof_header + GetLen r <= file_length f
  /\ Z.of_nat (List.length (GetBuffer r)) = GetLen r
  /\ GetFileImp r = Some f.
Proof.
  unfold SSFiles.read_record, readAt, file_length.
  destruct (read_bytes f offset sizeof_header) as [hb |] eqn:Eh; [| discriminate].
  destruct (read_bytes f (offset + sizeof_header) _) as [p |] eqn:Ep; [| discriminate].
  intros E. inversion E; subst; clear E. simpl.
  apply read_bytes_bounds in Eh. pose proof (read_bytes_length _ _ _ _ Ep).
  apply read_bytes_bounds in Ep. repeat split; try lia.
Qed.


(** *** The walk *)

Lemma off_bits_positive (n : Z) : 0 <= n < 2 ^ (off_bits - 1) -> 0 < off_bits.
Proof.
  intros H. destruct (Z_lt_le_dec 0 off_bits) as [Hp | Hn]; [exact Hp |].
  destruct (Z.eq_dec off_bits 0) as [-> | Hne].
  - simpl in H. lia.
  - rewrite Z.pow_neg_r in H by lia. lia.
Qed.

(** Inside the range of [off_t] the next offset is the plain sum. *)
Lemma GetNextOffset_exact (r : SSRecord) :
  0 <= GetOffset r + GetLen r + sizeof_header < 2 ^ (off_bits - 1) ->
  GetNextOffset r = GetOffset r + GetLen r + sizeof_header.
Proof.
  intros H. unfold SSRecordH.GetNextOffset, GetOffset, GetLen in *.
  apply to_signed_small; [eapply off_bits_positive; eassumption | lia].
Qed.

Lemma scan_from_eof (fuel : nat) (f : SSFileImp) (offset : Z) :
  file_length f - offset < sizeof_header ->
  scan_from (S fuel) f offset = ([], Done).
Proof. intros H. simpl. now rewrite read_record_eof. Qed.

Lemma scan_from_truncated (fuel : nat) (f : SSFileImp) (offset : Z) :
  0 <= offset ->
  sizeof_header <= file_length f - offset ->
  file_length f - (offset + sizeof_header)
  < payload_length
      (decode_header (firstn (Z.to_nat sizeof_header) (skipn (Z.to_nat offset) f))) ->
  scan_from (S fuel) f offset = ([], TruncatedRecord offset).
Proof. intros H0 H1 H2. simpl. now rewrite read_record_truncated. Qed.

(** The fuel of [scan] is enough: on a file that [off_t] can address the walk
    ends by itself. *)
Lemma scan_from_ends (fuel : nat) (f : SSFileImp) (offset : Z) :
  file_length f < 2 ^ (off_bits - 1) ->
  (Z.to_nat (file_length f - offset) < fuel)%nat ->
  snd (scan_from fuel f offset) <> OutOfFuel.
Proof.
  intros Hfit. revert offset.
  induction fuel as [| k IH]; intros offset Hfuel; [lia |].
  simpl. destruct (read_record f offset) as [| o | r] eqn:E; simpl;
    try discriminate.
  apply read_record_Rec in E. destruct E as (Ho & H0 & Hl & Hin & _ & _).
  apply IH. rewrite GetNextOffset_exact by (unfold file_length in *; lia).
  unfold file_length in *. lia.
Qed.

Lemma scan_ends (f : SSFileImp) :
  file_length f < 2 ^ (off_bits - 1) -> snd (scan f) <> OutOfFuel.
Proof.
  intros Hfit. unfold SSFiles.scan. apply scan_from_ends; [exact Hfit |].
  unfold file_length. lia.
Qed.

(** *** Constructed files *)

Lemma entry_ok_spec (e : entry) :
  entry_ok e = true ->
  Z.of_nat (List.length (fst e)) = sizeof_header
  /\ payload_length (decode_header (fst e)) = Z.of_nat (List.length (snd e)).
Proof.
  unfold SSFiles.entry_ok. rewrite andb_true_iff, !Z.eqb_eq. tauto.
Qed.

Lemma read_record_entry (pre suf : list byte) (e : entry) :
  entry_ok e = true ->
  read_record (pre ++ fst e ++ snd e ++ suf) (Z.of_nat (List.length pre))
  = Rec (record_at decode_header (pre ++ fst e ++ snd e ++ suf)
           (Z.of_nat (List.length pre)) e).
Proof.
  intros Hok. apply entry_ok_spec in Hok. destruct Hok as [Hh Hp].
  unfold SSFiles.read_record, readAt, record_at.
  rewrite <- Hh at 1. rewrite read_bytes_app. rewrite Hp.
  replace (Z.of_nat (List.length pre) + sizeof_header)
    with (Z.of_nat (List.length (pre ++ fst e)))
    by (rewrite length_app; lia).
  replace (pre ++ fst e ++ snd e ++ suf) with ((pre ++ fst e) ++ snd e ++ suf) at 1
    by (now rewrite <- app_assoc).
  now rewrite read_bytes_app.
Qed.

(** The walk over a well-formed layout placed after [pre] yields its records
    and goes on behind them. *)
Lemma scan_from_layout (fuel : nat) (l : list entry) (pre suf : list byte) :
  forallb entry_ok l = true ->
  file_length (pre ++ build_file l ++ suf) < 2 ^ (off_bits - 1) ->
  let f := pre ++ build_file l ++ suf in
  let behind :=
    scan_from fuel f (Z.of_nat (List.length pre) + file_length (build_file l)) in
  scan_from (List.length l + fuel) f (Z.of_nat (List.length pre))
  = (layout_records f (Z.of_nat (List.length pre)) l ++ fst behind, snd behind).
Proof.
  revert pre. induction l as [| e rest IH]; intros pre Hok Hfit; cbv zeta.
  - unfold build_file, file_length. simpl. rewrite Z.add_0_r.
    now destruct (scan_from fuel (pre ++ suf) (Z.of_nat (List.length pre))).
  - cbn [forallb] in Hok. apply andb_true_iff in Hok. destruct Hok as [He Hrest].
    pose proof (entry_ok_spec e He) as [Hh Hp].
    rewrite build_file_cons in *. rewrite <- !app_assoc in *.
    cbn [List.length Nat.add SSFiles.scan_from].
    rewrite (read_record_entry pre (build_file rest ++ suf) e He).
    set (f := pre ++ fst e ++ snd e ++ build_file rest ++ suf) in *.
    assert (Hnext : GetNextOffset (record_at decode_header f (Z.of_nat (List.length pre)) e)
                    = Z.of_nat (List.length (pre ++ fst e ++ snd e))).
    { rewrite GetNextOffset_exact; unfold GetOffset, GetLen, record_at; simpl;
        unfold file_length, f in *; rewrite !length_app in *; lia. }
    rewrite Hnext.
    specialize (IH (pre ++ fst e ++ snd e)).
    rewrite <- !app_assoc in IH. fold f in IH.
    rewrite IH by (assumption || exact Hfit). cbv zeta. cbn [fst snd layout_records].
    replace (Z.of_nat (List.length (pre ++ fst e ++ snd e)))
      with (Z.of_nat (List.length pre) + sizeof_header + Z.of_nat (List.length (snd e)))
      by (rewrite !length_app; lia).
    replace (Z.of_nat (List.length pre) + file_length (fst e ++ snd e ++ build_file rest))
      with (Z.of_nat (List.length pre) + sizeof_header + Z.of_nat (List.length (snd e))
            + file_length (build_file rest))
      by (unfold file_length; rewrite !length_app; lia).
    reflexivity.
Qed.

Lemma layout_records_length (f : SSFileImp) (offset : Z) (l : list entry) :
  List.length (layout_records f offset l) = List.length l.
Proof.
  revert offset. induction l as [| e rest IH]; intros offset; simpl; [reflexivity |].
  now rewrite IH.
Qed.

Lemma entries_nonempty (l : list entry) :
  forallb entry_ok l = true ->
  (List.length l <= List.length (build_file l))%nat.
Proof.
  induction l as [| e rest IH]; intros Hok; [simpl; lia |].
  cbn [forallb] in Hok. apply andb_true_iff in Hok. destruct Hok as [He Hrest].
  apply entry_ok_spec in He. destruct He as [Hh _].
  rewrite build_file_cons, !length_app. specialize (IH Hrest). simpl. lia.
Qed.

(** Offsets of the records of a layout, from the layout alone: the [i]-th
    record starts where the first [i] entries end. *)
Lemma layout_records_nth (f : SSFileImp) (l : list entry) (offset : Z)
      (i : nat) (r : SSRecord) :
  forallb entry_ok l = true ->
  nth_error (layout_records f offset l) i = Some r ->
  exists e, nth_error l i = Some e
    /\ r = record_at decode_header f (offset + file_length (build_file (firstn i l))) e
    /\ offset + file_length (build_file (firstn (S i) l))
       = GetOffset r + GetLen r + sizeof_header.
Proof.
  revert offset i. induction l as [| e rest IH]; intros offset i Hok Hr.
  - destruct i; discriminate Hr.
  - cbn [forallb] in Hok. apply andb_true_iff in Hok. destruct Hok as [He Hrest].
    pose proof (entry_ok_spec e He) as [Hh Hp].
    destruct i as [| j]; cbn [layout_records nth_error] in Hr.
    + inversion Hr; subst; clear Hr. exists e. split; [reflexivity |].
      cbn [firstn]. unfold build_file at 1, file_length at 1. simpl.
      rewrite Z.add_0_r. split; [reflexivity |].
      rewrite build_file_cons. unfold file_length, build_file.
      simpl. rewrite !length_app. simpl. lia.
    + destruct (IH _ j Hrest Hr) as (e' & Hn & Hrec & Hend).
      exists e'. split; [exact Hn |]. rewrite !firstn_cons.
      rewrite !build_file_cons. unfold file_length in *. rewrite !length_app.
      split.
      * rewrite Hrec. f_equal. lia.
      * rewrite <- Hend. lia.
Qed.

(** C1.  On a file built by concatenating the entries of [l], each with a
    header of the right size that declares the length of its payload, [scan]
    ends without error with exactly as many records as [l] has entries; the
    [i]-th record carries the header and payload of the [i]-th entry, starts
    where the first [i] entries end, and its [GetNextOffset], which is
    [GetOffset + GetLen + sizeof (RECORD_HEADER)], is where the first [i + 1]
    entries end.  The file has to be one [off_t] can address. *)
Theorem scan_well_formed_file (l : list entry) :
  forallb entry_ok l = true ->
  file_length (build_file l) < 2 ^ (off_bits - 1) ->
  exists rs,
    scan (build_file l) = (rs, Done)
    /\ List.length rs = List.length l
    /\ (forall i r, nth_error rs i = Some r ->
          exists e, nth_error l i = Some e
            /\ m_Header r = decode_header (fst e)
            /\ GetBuffer r = snd e
            /\ GetOffset r = file_length (build_file (firstn i l))
            /\ GetNextOffset r = file_length (build_file (firstn (S i) l))
            /\ GetNextOffset r = GetOffset r + GetLen r + sizeof_header).
Proof.
  intros Hok Hfit. set (f := build_file l).
  exists (layout_records f 0 l).
  assert (Hscan : scan f = (layout_records f 0 l, Done)).
  { pose proof (entries_nonempty l Hok) as Hn. fold f in Hn.
    unfold SSFiles.scan.
    replace (S (List.length f))
      with (List.length l + S (List.length f - List.length l))%nat by lia.
    pose proof (scan_from_layout (S (List.length f - List.length l)) l [] [] Hok)
      as Hl.
    rewrite app_nil_r in Hl. cbn [app List.length] in Hl. fold f in Hl.
    change (Z.of_nat 0) with 0 in Hl. cbv zeta in Hl.
    rewrite Hl by exact Hfit.
    rewrite scan_from_eof by (unfold f; lia).
    cbn [fst snd]. now rewrite app_nil_r. }
  split; [exact Hscan | split; [apply layout_records_length |]].
  intros i r Hr.
  destruct (layout_records_nth f l 0 i r Hok Hr) as (e & Hn & Hrec & Hend).
  rewrite !Z.add_0_l in *.
  exists e. split; [exact Hn |].
  assert (Hoff : GetOffset r = file_length (build_file (firstn i l)))
    by (rewrite Hrec; reflexivity).
  assert (Hle : file_length (build_file (firstn (S i) l)) <= file_length (build_file l)).
  { rewrite <- (firstn_skipn (S i) l) at 2. rewrite build_file_app.
    unfold file_length. rewrite length_app. lia. }
  assert (Hnext : GetNextOffset r = GetOffset r + GetLen r + sizeof_header).
  { apply GetNextOffset_exact. rewrite <- Hend. unfold file_length in *. lia. }
  repeat split.
  - rewrite Hrec. reflexivity.
  - rewrite Hrec. reflexivity.
  - exact Hoff.
  - rewrite Hnext. symmetry. exact Hend.
  - exact Hnext.
Qed.

(** C6.  At any position of a file: when fewer bytes than a header remain,
    the walk ends there without error; when the header that is read declares
    more payload bytes than remain behind it, the walk ends there with
    [TruncatedRecord] carrying the offset of that header.  In both cases no
    record is produced from that position on. *)
Theorem scan_from_end_or_truncated (fuel : nat) (f : SSFileImp) (offset : Z) :
  0 <= offset ->
  (file_length f - offset < sizeof_header ->
   scan_from (S fuel) f offset = ([], Done))
  /\ (sizeof_header <= file_length f - offset ->
      file_length f - (offset + sizeof_header)
      < payload_length
          (decode_header
             (firstn (Z.to_nat sizeof_header) (skipn (Z.to_nat offset) f))) ->
      scan_from (S fuel) f offset = ([], TruncatedRecord offset)).
Proof.
  intros H0. split.
  - apply scan_from_eof.
  - now apply scan_from_truncated.
Qed.

(** The records of a well-formed layout in front of a truncated record are
    still produced, and nothing after them. *)
Lemma scan_truncated_after_layout (l : list entry) (suf : list byte) :
  forallb entry_ok l = true ->
  file_length (build_file l ++ suf) < 2 ^ (off_bits - 1) ->
  sizeof_header <= file_length suf ->
  file_length suf - sizeof_header
  < payload_length (decode_header (firstn (Z.to_nat sizeof_header) suf)) ->
  scan (build_file l ++ suf)
  = (layout_records (build_file l ++ suf) 0 l,
     TruncatedRecord (file_length (build_file l))).
Proof.
  intros Hok Hfit Hhdr Hlen. set (f := build_file l ++ suf) in *.
  pose proof (entries_nonempty l Hok) as Hn.
  unfold SSFiles.scan.
  assert (Hf : List.length f = (List.length (build_file l) + List.length suf)%nat)
    by (unfold f; apply length_app).
  replace (S (List.length f))
    with (List.length l + S (List.length f - List.length l))%nat by lia.
  pose proof (scan_from_layout (S (List.length f - List.length l)) l [] suf Hok)
    as Hl.
  cbn [app List.length] in Hl. fold f in Hl.
  change (Z.of_nat 0) with 0 in Hl. cbv zeta in Hl.
  rewrite Hl by exact Hfit. rewrite Z.add_0_l.
  rewrite scan_from_truncated.
  - cbn [fst snd]. now rewrite app_nil_r.
  - unfold file_length. lia.
  - unfold file_length in *. lia.
  - replace (skipn (Z.to_nat (file_length (build_file l))) f) with suf.
    + unfold file_length in *. lia.
    + unfold file_length, f. rewrite Nat2Z.id.
      now rewrite skipn_app, skipn_all, Nat.sub_diag.
Qed.

End Reader.

Lemma scan_well_formed_file_witness :
  0 < Sample.sizeof_header
  /\ forallb (entry_ok Sample.sizeof_header Sample.decode_header) Sample.two_records
     = true
  /\ file_length (build_file Sample.two_records) < 2 ^ (Sample.off_bits - 1)
  /\ exists rs,
       scan Sample.off_bits Sample.sizeof_header Sample.decode_header
         (build_file Sample.two_records) = (rs, Done)
       /\ List.length rs = 2%nat.
Proof.
  assert (H1 : 0 < Sample.sizeof_header) by reflexivity.
  assert (H2 : forallb (entry_ok Sample.sizeof_header Sample.decode_header)
                 Sample.two_records = true) by (vm_compute; reflexivity).
  assert (H3 : file_length (build_file Sample.two_records)
               < 2 ^ (Sample.off_bits - 1)) by (vm_compute; reflexivity).
  split; [exact H1 | split; [exact H2 | split; [exact H3 |]]].
  destruct (scan_well_formed_file Sample.off_bits Sample.sizeof_header
              Sample.decode_header H1 Sample.two_records H2 H3)
    as (rs & Hs & Hn & _).
  exists rs. split; [exact Hs | exact Hn].
Defined.

Lemma scan_from_end_or_truncated_witness :
  0 < Sample.sizeof_header /\ 0 <= 0
  /\ scan_from Sample.off_bits Sample.sizeof_header Sample.decode_header
       1 Sample.short_file 0
     = ([], TruncatedRecord 0)
  /\ scan_from Sample.off_bits Sample.sizeof_header Sample.decode_header
       1 Sample.short_file 42
     = ([], Done).
Proof.
  assert (H1 : 0 < Sample.sizeof_header) by reflexivity.
  assert (H2 : 0 <= 0) by lia.
  assert (H3 : 0 <= 42) by lia.
  split; [exact H1 | split; [exact H2 | split]].
  - apply (scan_from_end_or_truncated Sample.off_bits Sample.sizeof_header
             Sample.decode_header H1 0 Sample.short_file 0 H2);
      vm_compute; first [reflexivity | discriminate].
  - apply (scan_from_end_or_truncated Sample.off_bits Sample.sizeof_header
             Sample.decode_header H1 0 Sample.short_file 42 H3);
      vm_compute; first [reflexivity | discriminate].
Defined.

(** The scenario of the specification: 100 bytes declared, 40 present. *)
Example scan_short_file :
  scan Sample.off_bits Sample.sizeof_header Sample.decode_header Sample.short_file
  = ([], TruncatedRecord 0).
Proof. vm_compute. reflexivity. Qed.

Example scan_two_records_offsets :
  map (fun r => (GetRecordType r, GetOffset r, GetLen r,
                 GetNextOffset Sample.off_bits Sample.sizeof_header r))
    (fst (scan Sample.off_bits Sample.sizeof_header Sample.decode_header
            (build_file Sample.two_records)))
  = [("BF", 0, 10, 16); ("ZZ", 16, 4, 26)].
Proof. vm_compute. reflexivity. Qed.

End ReaderProps.

(** ** The branch-file object *)

Module BranchFileProps.
Import Mem MemFacts SSRecordH SSFiles SSBranchFileObjectH ReaderProps.

Lemma le_value_bound (bs : list byte) :
  0 <= le_value bs < 256 ^ Z.of_nat (List.length bs).
Proof.
  induction bs as [| b rest IH].
  - simpl. lia.
  - cbn [le_value List.length]. rewrite Nat2Z.inj_succ, Z.pow_succ_r by lia.
    pose proof (Byte.to_N_bounded b). lia.
Qed.

Lemma read_ulong32_inside (buf : list byte) (at_ : Z) :
  0 <= at_ -> at_ + 4 <= Z.of_nat (List.length buf) ->
  exists v, read_ulong32 buf at_ = Some v /\ 0 <= v < 2 ^ 32.
Proof.
  intros H0 H1. unfold read_ulong32.
  pose proof (read_bytes_inside buf at_ 4 H0 ltac:(lia) H1) as E.
  rewrite E. simpl option_map. eexists. split; [reflexivity |].
  pose proof (read_bytes_length _ _ _ _ E) as Hl.
  pose proof (le_value_bound (firstn (Z.to_nat 4) (skipn (Z.to_nat at_) buf))) as Hb.
  rewrite Hl in Hb. exact Hb.
Qed.

Lemma read_ulong32_outside (buf : list byte) (at_ : Z) :
  Z.of_nat (List.length buf) < at_ + 4 -> read_ulong32 buf at_ = None.
Proof.
  intros H. unfold read_ulong32. rewrite read_bytes_past_end by lia. reflexivity.
Qed.

(** A C string ends inside the bytes exactly when one of them is NUL. *)
Lemma c_str_terminated (bs : list byte) :
  c_str bs <> None <-> In Byte.x00 bs.
Proof.
  induction bs as [| b rest IH]; simpl.
  - split; [congruence | tauto].
  - destruct (Byte.eqb b Byte.x00) eqn:E.
    + apply Byte.byte_dec_bl in E. subst b. split; [now left | discriminate].
    + apply Byte.eqb_false in E.
      destruct (c_str rest) as [s |]; simpl; split.
      * intros _. right. apply IH. discriminate.
      * discriminate.
      * congruence.
      * intros [Hb | Hin]; [congruence |]. apply IH in Hin. congruence.
Qed.

Section Layout.

Variable sizeof_header : Z.
Variable decode_header : list byte -> RECORD_HEADER.
Variable L : BF_layout.

Local Abbreviation GetPreviousOffset := (GetPreviousOffset L).
Local Abbreviation GetBranchToPhys := (GetBranchToPhys L).
Local Abbreviation new_SSBranchFileObject := (new_SSBranchFileObject L).

Lemma BF_layout_ok_spec :
  BF_layout_ok L = true ->
  0 <= offsetof_previousOffset L
  /\ offsetof_previousOffset L + 4 <= sizeof_BF L
  /\ 0 <= offsetof_branchToPhys L < sizeof_BF L.
Proof.
  unfold BF_layout_ok. rewrite !andb_true_iff, !Z.leb_le, Z.ltb_lt. tauto.
Qed.

(** The accessors check nothing: on a payload too short to hold the member
    they read behind it. *)
Lemma GetPreviousOffset_unguarded (r : SSRecord) (mark : bool) :
  buffer_ok r = true ->
  GetLen r < offsetof_previousOffset L + 4 ->
  GetPreviousOffset {| m_pRecord := r; invalid := mark |} = None.
Proof.
  unfold buffer_ok. rewrite Z.eqb_eq. intros Hb Hs.
  unfold SSBranchFileObjectH.GetPreviousOffset, GetData, SSObject_GetData.
  cbn [m_pRecord]. apply read_ulong32_outside. lia.
Qed.

(** C5, as the accessors have it.  An object built on a payload shorter than
    [BF] is marked invalid.  On an object that is not, [GetPreviousOffset]
    reads four bytes inside the payload, and [GetBranchToPhys] stays inside
    the payload exactly when the payload has a NUL byte at or behind the
    offset of [branchToPhys]. *)
Theorem BranchFile_decoding_bounds (r : SSRecord) :
  BF_layout_ok L = true ->
  buffer_ok r = true ->
  (GetLen r < sizeof_BF L -> invalid (new_SSBranchFileObject r) = true)
  /\ (sizeof_BF L <= GetLen r ->
      invalid (new_SSBranchFileObject r) = false
      /\ (exists v, GetPreviousOffset (new_SSBranchFileObject r) = Some v
                    /\ 0 <= v < 2 ^ 32)
      /\ (GetBranchToPhys (new_SSBranchFileObject r) <> None
          <-> In Byte.x00
                (skipn (Z.to_nat (offsetof_branchToPhys L)) (GetBuffer r)))).
Proof.
  intros HL Hb. apply BF_layout_ok_spec in HL. destruct HL as (Hp0 & Hp4 & Hs).
  unfold buffer_ok in Hb. rewrite Z.eqb_eq in Hb.
  unfold SSBranchFileObjectH.new_SSBranchFileObject. cbn [invalid]. split.
  - intros Hshort. now apply Z.ltb_lt.
  - intros Hlong. split; [now apply Z.ltb_ge | split].
    + unfold SSBranchFileObjectH.GetPreviousOffset, GetData, SSObject_GetData.
      cbn [m_pRecord]. apply read_ulong32_inside; lia.
    + unfold SSBranchFileObjectH.GetBranchToPhys, GetData, SSObject_GetData,
        read_c_str. cbn [m_pRecord].
      destruct (Z.leb_spec 0 (offsetof_branchToPhys L)); [| lia].
      destruct (Z.leb_spec (offsetof_branchToPhys L)
                  (Z.of_nat (List.length (GetBuffer r)))); [| lia].
      cbn [andb]. apply c_str_terminated.
Qed.

End Layout.

(** C5, as stated, fails on a payload of the full size without a NUL byte:
    the object is not marked invalid and [GetBranchToPhys] runs off the end
    of the payload. *)
Lemma GetBranchToPhys_reads_past_payload :
  buffer_ok Sample.unterminated = true
  /\ sizeof_BF Sample.BF <= GetLen Sample.unterminated
  /\ invalid (new_SSBranchFileObject Sample.BF Sample.unterminated) = false
  /\ GetBranchToPhys Sample.BF
       (new_SSBranchFileObject Sample.BF Sample.unterminated) = None.
Proof. vm_compute. repeat split; discriminate. Qed.

Lemma BranchFile_decoding_bounds_witness :
  BF_layout_ok Sample.BF = true
  /\ buffer_ok Sample.chained_first = true
  /\ invalid (new_SSBranchFileObject Sample.BF Sample.chained_first) = false
  /\ exists v,
       GetPreviousOffset Sample.BF
         (new_SSBranchFileObject Sample.BF Sample.chained_first) = Some v
       /\ 0 <= v < 2 ^ 32.
Proof.
  assert (H1 : BF_layout_ok Sample.BF = true) by (vm_compute; reflexivity).
  assert (H2 : buffer_ok Sample.chained_first = true) by (vm_compute; reflexivity).
  assert (H3 : sizeof_BF Sample.BF <= GetLen Sample.chained_first)
    by (vm_compute; discriminate).
  split; [exact H1 | split; [exact H2 |]].
  destruct (BranchFile_decoding_bounds Sample.BF Sample.chained_first H1 H2)
    as [_ Hlong].
  destruct (Hlong H3) as (Hv & Hp & _).
  split; [exact Hv | exact Hp].
Defined.

(** The second record of [chained_file] is the one the reader finds at
    offset 16. *)
Example chained_second_is_read :
  read_record Sample.sizeof_header Sample.decode_header Sample.chained_file 16
  = Rec Sample.chained_second.
Proof. vm_compute. reflexivity. Qed.

End BranchFileProps.

(** ** The [validate] command *)

Module ValidateProps.
Import ValidateCommand.

Section Execute.

Variables E File W : Type.
Variable MakeFile : string -> outcome E (option File).
Variable Validate : File -> W -> outcome E W.

Local Abbreviation Execute := (Execute E File W MakeFile Validate).


End Execute.


End ValidateProps.

(** ** Records behind shared pointers *)

Module SharedProps.
Import Mem SSRecordH SSFiles SSBranchFileObjectH Shared.

Lemma read_only_bind {A B : Type} (m : prog A) (f : A -> prog B) :
  read_only m -> (forall a, read_only (f a)) -> read_only (bind m f).
Proof.
  intros Hm Hf. induction Hm as [a | p k _ IH | x k _ IH]; cbn [bind].
  - apply Hf.
  - constructor. exact IH.
  - constructor. exact IH.
Qed.

(** A program that stores nothing leaves every record as it was. *)
Lemma read_only_frame {A : Type} (m : prog A) :
  read_only m ->
  forall (w w' : world) (a : A), exec m w = Some (a, w') -> records w' = records w.
Proof.
  intros Hm. induction Hm as [a0 | p k _ IH | x k _ IH]; intros w w' a E;
    cbn [exec] in E.
  - inversion E; subst. reflexivity.
  - destruct (nth_error (records w) p) as [r |]; [| discriminate E].
    exact (IH r w w' a E).
  - apply IH in E. exact E.
Qed.

Lemma set_nth_length {A : Type} (l : list A) (i : nat) (a : A) :
  List.length (set_nth l i a) = List.length l.
Proof.
  revert i. induction l as [| x rest IH]; intros [| j]; simpl; auto.
Qed.

Lemma set_nth_same {A : Type} (l : list A) (i : nat) (a : A) :
  (i < List.length l)%nat -> nth_error (set_nth l i a) i = Some a.
Proof.
  revert i. induction l as [| x rest IH]; intros [| j] H; simpl in *;
    try lia; [reflexivity | apply IH; lia].
Qed.

Lemma set_nth_other {A : Type} (l : list A) (i j : nat) (a : A) :
  j <> i -> nth_error (set_nth l i a) j = nth_error l j.
Proof.
  revert i j. induction l as [| x rest IH]; intros [| i] [| j] H; simpl;
    try reflexivity; try congruence.
  apply IH. congruence.
Qed.

(** What a store through the pointer of the non-const [GetBuffer] does. *)
Lemma store_through_GetBuffer (this : SSRecordPtr) (i : nat) (b : byte)
      (w : world) (r : SSRecord) :
  nth_error (records w) this = Some r ->
  (i < List.length (m_pBuffer r))%nat ->
  exec (bind (GetBuffer this) (fun q => Store q i b (Ret tt))) w
  = Some (tt, {| records := set_nth (records w) this (with_byte r i b);
                 output := output w |}).
Proof.
  intros Hr Hi. apply Nat.ltb_lt in Hi.
  cbn [GetBuffer bind exec]. rewrite Hr. cbn [bind exec]. try rewrite Hr.
  now rewrite Hi.
Qed.



(** A consumer in the manner of [Dump]: it reads the tag and writes it. *)
Example a_dump_is_read_only (this : SSRecordPtr) :
  read_only (bind (member GetRecordType this) (fun t => Emit t (Ret tt))).
Proof. unfold member. cbn [bind]. repeat constructor. Qed.

Example a_dump_runs :
  exec (bind (member GetRecordType 0%nat) (fun t => Emit t (Ret tt)))
       Sample.one_record
  = Some (tt, {| records := [Sample.chained_first]; output := ["BF"] |}).
Proof. vm_compute. reflexivity. Qed.

End SharedProps.

(** ** More on the action table *)

Module ActionTableProps.
Import Mem MemFacts SSTypes ActionProps.

Lemma g_szActions_NoDup : NoDup g_szActions.
Proof.
  unfold g_szActions. repeat constructor; simpl; intros H;
    repeat (destruct H as [H | H]; [discriminate H |]); exact H.
Qed.

Lemma unknown_is_no_label : ~ In "unknown" g_szActions.
Proof.
  simpl. intros H. repeat (destruct H as [H | H]; [discriminate H |]). exact H.
Qed.

Section Width.

Variable size_t_bits : Z.
Hypothesis size_t_wide : 32 <= size_t_bits.

(** For an [int], ["unknown"] is the answer exactly for the codes outside
    the table: no entry of the table is spelled that way. *)
Theorem ActionToString_unknown_iff (e : Z) :
  int_range e ->
  (ActionToString size_t_bits e = Some "unknown" <-> e < 0 \/ 27 < e).
Proof.
  intros Hr. split.
  - intros H. destruct (Z_lt_le_dec e 0) as [Hn | Hp]; [now left |].
    destruct (Z_lt_le_dec 27 e) as [Hb | Hs]; [now right |].
    exfalso. rewrite (ActionToString_inside size_t_bits size_t_wide) in H by lia.
    apply nth_error_In in H. exact (unknown_is_no_label H).
  - apply (ActionToString_outside size_t_bits size_t_wide e Hr).
Qed.

(** A label of the table names one code only: when two [int] codes get the
    same label and one of them is a code of the table, they are equal. *)
Theorem ActionToString_injective (e1 e2 : Z) :
  int_range e2 ->
  0 <= e1 <= 27 ->
  ActionToString size_t_bits e1 = ActionToString size_t_bits e2 ->
  e1 = e2.
Proof.
  intros Hr2 H1 Heq.
  rewrite (ActionToString_inside size_t_bits size_t_wide e1 H1) in Heq.
  assert (H2 : 0 <= e2 <= 27).
  { destruct (Z_lt_le_dec e2 0) as [Hn | Hp];
      [| destruct (Z_lt_le_dec 27 e2) as [Hb | Hs]; [| lia]].
    - rewrite (ActionToString_outside size_t_bits size_t_wide e2 Hr2) in Heq
        by now left.
      apply nth_error_In in Heq. destruct (unknown_is_no_label Heq).
    - rewrite (ActionToString_outside size_t_bits size_t_wide e2 Hr2) in Heq
        by now right.
      apply nth_error_In in Heq. destruct (unknown_is_no_label Heq). }
  rewrite (ActionToString_inside size_t_bits size_t_wide e2 H2) in Heq.
  assert (Hn : Z.to_nat e1 = Z.to_nat e2).
  { apply (proj1 (NoDup_nth_error g_szActions) g_szActions_NoDup); [| exact Heq].
    simpl. lia. }
  lia.
Qed.

End Width.

(** The width of [size_t] does not matter from 32 bits on: the builds agree
    on every [int]. *)
Theorem ActionToString_any_width (w1 w2 : Z) (e : Z) :
  32 <= w1 -> 32 <= w2 -> int_range e ->
  ActionToString w1 e = ActionToString w2 e.
Proof.
  intros H1 H2 Hr. unfold ActionToString.
  now rewrite (in_table_iff w1 H1 e Hr), (in_table_iff w2 H2 e Hr).
Qed.

Lemma ActionToString_unknown_iff_witness :
  32 <= Sample.size_t_bits /\ int_range 28
  /\ ActionToString Sample.size_t_bits 28 = Some "unknown".
Proof.
  assert (W : 32 <= Sample.size_t_bits) by (vm_compute; discriminate).
  assert (R : int_range 28) by (unfold int_range; simpl; lia).
  split; [exact W | split; [exact R |]].
  apply (ActionToString_unknown_iff Sample.size_t_bits W 28 R). right. lia.
Defined.

Lemma ActionToString_injective_witness :
  32 <= Sample.size_t_bits /\ int_range 21 /\ 0 <= 21 <= 27
  /\ ActionToString Sample.size_t_bits 21 = ActionToString Sample.size_t_bits 21
  /\ 21 = 21.
Proof.
  assert (W : 32 <= Sample.size_t_bits) by (vm_compute; discriminate).
  assert (R : int_range 21) by (unfold int_range; simpl; lia).
  assert (I : 0 <= 21 <= 27) by lia.
  split; [exact W | split; [exact R | split; [exact I | split; [reflexivity |]]]].
  exact (ActionToString_injective Sample.size_t_bits W 21 21 R I eq_refl).
Defined.

Lemma ActionToString_any_width_witness :
  32 <= 32 /\ 32 <= 64 /\ int_range (-5)
  /\ ActionToString 32 (-5) = ActionToString 64 (-5).
Proof.
  assert (H1 : 32 <= 32) by lia.
  assert (H2 : 32 <= 64) by lia.
  assert (R : int_range (-5)) by (unfold int_range; simpl; lia).
  split; [exact H1 | split; [exact H2 | split; [exact R |]]].
  exact (ActionToString_any_width 32 64 (-5) H1 H2 R).
Defined.

End ActionTableProps.

(** ** More on [GetNextOffset] *)

Module NextOffsetProps.
Import Mem MemFacts SSRecordH Layout.

Lemma pow2_double (w : Z) : 0 < w -> 2 ^ w = 2 * 2 ^ (w - 1).
Proof.
  intros Hw. replace w with (Z.succ (w - 1)) at 1 by lia.
  apply Z.pow_succ_r. lia.
Qed.

Lemma to_signed_range (w z : Z) :
  0 < w -> - 2 ^ (w - 1) <= to_signed w z < 2 ^ (w - 1).
Proof.
  intros Hw. unfold to_signed. pose proof (pow2_double w Hw) as E.
  assert (Hp : 0 < 2 ^ (w - 1)) by (apply Z.pow_pos_nonneg; lia).
  pose proof (Z.mod_pos_bound (z + 2 ^ (w - 1)) (2 ^ w) ltac:(lia)). lia.
Qed.

Lemma to_signed_congruent (w z : Z) :
  0 < w -> (to_signed w z - z) mod 2 ^ w = 0.
Proof.
  intros Hw. unfold to_signed.
  assert (Hp : 0 < 2 ^ w) by (apply Z.pow_pos_nonneg; lia).
  rewrite (Z.mod_eq (z + 2 ^ (w - 1)) (2 ^ w)) by lia.
  replace (z + 2 ^ (w - 1) - 2 ^ w * ((z + 2 ^ (w - 1)) / 2 ^ w)
           - 2 ^ (w - 1) - z)
    with (- ((z + 2 ^ (w - 1)) / 2 ^ w) * 2 ^ w) by ring.
  apply Z.mod_mul. lia.
Qed.

Lemma to_signed_above (w z : Z) :
  0 < w -> 2 ^ (w - 1) <= z < 2 ^ w + 2 ^ (w - 1) -> to_signed w z = z - 2 ^ w.
Proof.
  intros Hw H. unfold to_signed. pose proof (pow2_double w Hw) as E.
  replace (z + 2 ^ (w - 1)) with ((z - 2 ^ (w - 1)) + 1 * 2 ^ w) by lia.
  rewrite Z_mod_plus_full, Z.mod_small by lia. lia.
Qed.

Section Platform.

Variable off_bits : Z.
Variable sizeof_header : Z.
Hypothesis off_bits_positive : 0 < off_bits.

Local Abbreviation GetNextOffset := (GetNextOffset off_bits sizeof_header).
Local Abbreviation end_of := (end_of sizeof_header).
Local Abbreviation fits := (fits off_bits sizeof_header).
Local Abbreviation chained := (chained off_bits sizeof_header).
Local Abbreviation span := (span sizeof_header).
Local Abbreviation last_next := (last_next off_bits sizeof_header).

Lemma fits_spec (r : SSRecord) :
  fits r = true <-> - 2 ^ (off_bits - 1) <= end_of r < 2 ^ (off_bits - 1).
Proof. unfold Layout.fits. rewrite andb_true_iff, Z.leb_le, Z.ltb_lt. tauto. Qed.

Lemma GetNextOffset_fits (r : SSRecord) :
  fits r = true -> GetNextOffset r = end_of r.
Proof.
  intros H. apply fits_spec in H.
  unfold SSRecordH.GetNextOffset, Layout.end_of, GetOffset, GetLen in *.
  now apply to_signed_small.
Qed.

(** [GetNextOffset] is always a value of [off_t] that differs from
    [m_Offset + m_Len + sizeof (m_Header)] by a multiple of [2 ^ off_bits];
    it is that sum exactly when the sum is a value of [off_t]. *)
Theorem GetNextOffset_modular (r : SSRecord) :
  - 2 ^ (off_bits - 1) <= GetNextOffset r < 2 ^ (off_bits - 1)
  /\ (GetNextOffset r - end_of r) mod 2 ^ off_bits = 0
  /\ (GetNextOffset r = end_of r <-> fits r = true).
Proof.
  split; [| split].
  - apply to_signed_range. exact off_bits_positive.
  - apply to_signed_congruent. exact off_bits_positive.
  - split.
    + intros E. apply fits_spec. rewrite <- E.
      apply to_signed_range. exact off_bits_positive.
    + apply GetNextOffset_fits.
Qed.

(** A record whose end lies at or behind the largest [off_t], by less than
    [2 ^ off_bits], gets a next offset that is too small by [2 ^ off_bits];
    it is negative when the end is below [2 ^ off_bits]. *)
Theorem GetNextOffset_overflow (r : SSRecord) :
  2 ^ (off_bits - 1) <= end_of r < 2 ^ off_bits + 2 ^ (off_bits - 1) ->
  GetNextOffset r = end_of r - 2 ^ off_bits
  /\ (end_of r < 2 ^ off_bits -> GetNextOffset r < 0).
Proof.
  intros H.
  assert (E : GetNextOffset r = end_of r - 2 ^ off_bits)
    by (apply to_signed_above; [exact off_bits_positive | exact H]).
  split; [exact E | intros Hlt; rewrite E; lia].
Qed.

(** Over a run of records each starting at the next offset of the one
    before, all inside the range of [off_t], the next offsets add up: the
    run ends at its start plus the lengths and headers of its records. *)
Theorem chained_span (rs : list SSRecord) (start : Z) :
  forallb fits rs = true ->
  chained rs = true ->
  hd_error (map GetOffset rs) = Some start ->
  last_next start rs = start + span rs.
Proof.
  revert start. induction rs as [| r rest IH]; intros start Hf Hc Hs.
  - discriminate Hs.
  - cbn [forallb] in Hf. apply andb_true_iff in Hf. destruct Hf as [Hr Hrest].
    simpl in Hs. inversion Hs as [Hs']. clear Hs.
    cbn [Layout.last_next Layout.span].
    pose proof (GetNextOffset_fits r Hr) as En.
    destruct rest as [| r' rest'].
    + cbn [Layout.last_next Layout.span]. rewrite En.
      unfold Layout.end_of. lia.
    + cbn [Layout.chained] in Hc. apply andb_true_iff in Hc.
      destruct Hc as [Ho Hc]. apply Z.eqb_eq in Ho.
      rewrite (IH (GetNextOffset r) Hrest Hc) by (simpl; now rewrite Ho).
      rewrite En. unfold Layout.end_of. lia.
Qed.

(** In such a run whose records each take at least one byte, header
    included, the offsets increase strictly: no record starts at or before
    an earlier one. *)
Theorem chained_offsets_increase (rs : list SSRecord) :
  forallb fits rs = true ->
  chained rs = true ->
  forallb (fun r => 0 <? GetLen r + sizeof_header) rs = true ->
  StronglySorted Z.lt (map GetOffset rs).
Proof.
  intros Hf Hc Hp.
  assert (G : forall rs, forallb fits rs = true -> chained rs = true ->
                forallb (fun r => 0 <? GetLen r + sizeof_header) rs = true ->
                StronglySorted Z.lt (map GetOffset rs)
                /\ forall r, hd_error rs = Some r ->
                     Forall (fun o => GetOffset r <= o) (map GetOffset rs)).
  { clear rs Hf Hc Hp. intros rs. induction rs as [| r rest IH]; intros Hf Hc Hp.
    - split; [constructor | intros r Hr; discriminate Hr].
    - cbn [forallb] in Hf, Hp.
      apply andb_true_iff in Hf. destruct Hf as [Hr Hrest].
      apply andb_true_iff in Hp. destruct Hp as [Hpos Hprest].
      apply Z.ltb_lt in Hpos.
      pose proof (GetNextOffset_fits r Hr) as En. unfold Layout.end_of in En.
      destruct rest as [| r' rest'].
      + split.
        * simpl. constructor; constructor.
        * intros r0 H0. inversion H0; subst. simpl. constructor; [lia | constructor].
      + cbn [Layout.chained] in Hc. apply andb_true_iff in Hc.
        destruct Hc as [Ho Hc]. apply Z.eqb_eq in Ho.
        destruct (IH Hrest Hc Hprest) as [Hs Hhd].
        specialize (Hhd r' eq_refl).
        assert (Hlt : GetOffset r < GetOffset r') by lia.
        split.
        * cbn [map]. constructor; [exact Hs |].
          eapply Forall_impl; [| exact Hhd]. cbn beta. intros o Ho'. lia.
        * intros r0 H0. inversion H0; subst r0. cbn [map].
          constructor; [lia |].
          eapply Forall_impl; [| exact Hhd]. cbn beta. intros o Ho'. lia. }
  exact (proj1 (G rs Hf Hc Hp)).
Qed.

End Platform.

Lemma GetNextOffset_modular_witness :
  0 < Sample.off_bits
  /\ GetNextOffset Sample.off_bits Sample.sizeof_header Sample.chained_first
     = end_of Sample.sizeof_header Sample.chained_first.
Proof.
  assert (W : 0 < Sample.off_bits) by reflexivity.
  split; [exact W |].
  destruct (GetNextOffset_modular Sample.off_bits Sample.sizeof_header W
              Sample.chained_first) as (_ & _ & [_ Hfits]).
  apply Hfits. vm_compute. reflexivity.
Defined.

Lemma GetNextOffset_overflow_witness :
  0 < Sample.off_bits
  /\ 2 ^ (Sample.off_bits - 1) <= end_of Sample.sizeof_header Cases.high
     < 2 ^ Sample.off_bits + 2 ^ (Sample.off_bits - 1)
  /\ GetNextOffset Sample.off_bits Sample.sizeof_header Cases.high < 0.
Proof.
  assert (W : 0 < Sample.off_bits) by reflexivity.
  assert (H : 2 ^ (Sample.off_bits - 1) <= end_of Sample.sizeof_header Cases.high
              < 2 ^ Sample.off_bits + 2 ^ (Sample.off_bits - 1))
    by (vm_compute; split; [discriminate | reflexivity]).
  split; [exact W | split; [exact H |]].
  destruct (GetNextOffset_overflow Sample.off_bits Sample.sizeof_header W
              Cases.high H) as [_ Hneg].
  apply Hneg. vm_compute. reflexivity.
Defined.

Lemma chained_span_witness :
  0 < Sample.off_bits
  /\ forallb (fits Sample.off_bits Sample.sizeof_header) Cases.run = true
  /\ chained Sample.off_bits Sample.sizeof_header Cases.run = true
  /\ hd_error (map GetOffset Cases.run) = Some 0
  /\ last_next Sample.off_bits Sample.sizeof_header 0 Cases.run
     = 0 + span Sample.sizeof_header Cases.run.
Proof.
  assert (W : 0 < Sample.off_bits) by reflexivity.
  assert (H1 : forallb (fits Sample.off_bits Sample.sizeof_header) Cases.run = true)
    by (vm_compute; reflexivity).
  assert (H2 : chained Sample.off_bits Sample.sizeof_header Cases.run = true)
    by (vm_compute; reflexivity).
  assert (H3 : hd_error (map GetOffset Cases.run) = Some 0) by reflexivity.
  split; [exact W | split; [exact H1 | split; [exact H2 | split; [exact H3 |]]]].
  exact (chained_span Sample.off_bits Sample.sizeof_header W Cases.run 0 H1 H2 H3).
Defined.

Lemma chained_offsets_increase_witness :
  0 < Sample.off_bits
  /\ forallb (fits Sample.off_bits Sample.sizeof_header) Cases.run = true
  /\ chained Sample.off_bits Sample.sizeof_header Cases.run = true
  /\ forallb (fun r => 0 <? GetLen r + Sample.sizeof_header) Cases.run = true
  /\ StronglySorted Z.lt (map GetOffset Cases.run).
Proof.
  assert (W : 0 < Sample.off_bits) by reflexivity.
  assert (H1 : forallb (fits Sample.off_bits Sample.sizeof_header) Cases.run = true)
    by (vm_compute; reflexivity).
  assert (H2 : chained Sample.off_bits Sample.sizeof_header Cases.run = true)
    by (vm_compute; reflexivity).
  assert (H3 : forallb (fun r => 0 <? GetLen r + Sample.sizeof_header) Cases.run
               = true) by (vm_compute; reflexivity).
  split; [exact W | split; [exact H1 | split; [exact H2 | split; [exact H3 |]]]].
  exact (chained_offsets_increase Sample.off_bits Sample.sizeof_header W
           Cases.run H1 H2 H3).
Defined.

End NextOffsetProps.

(** ** More on the accessors of the branch-file object *)

Module AccessorProps.
Import Mem MemFacts SSRecordH SSFiles SSBranchFileObjectH Layout ReaderProps.

Lemma bytes_of_String (a : ascii) (s : string) :
  list_byte_of_string (String a s) = byte_of_ascii a :: list_byte_of_string s.
Proof. reflexivity. Qed.

Lemma bytes_length (s : string) :
  List.length (list_byte_of_string s) = String.length s.
Proof.
  induction s as [| a s IH]; [reflexivity |].
  rewrite bytes_of_String. simpl. now rewrite IH.
Qed.

Lemma c_str_sound (bs : list byte) (s : string) :
  c_str bs = Some s ->
  exists rest,
    bs = list_byte_of_string s ++ Byte.x00 :: rest
    /\ ~ In Byte.x00 (list_byte_of_string s).
Proof.
  revert s. induction bs as [| b bs IH]; intros s H; simpl in H; [discriminate |].
  destruct (Byte.eqb b Byte.x00) eqn:E.
  - inversion H; subst. apply Byte.byte_dec_bl in E. subst b.
    exists bs. split; [reflexivity | intros []].
  - destruct (c_str bs) as [s' |]; [| discriminate].
    inversion H; subst; clear H.
    destruct (IH s' eq_refl) as (rest & Hbs & Hn).
    exists rest. rewrite bytes_of_String, byte_of_ascii_of_byte. split.
    + simpl. now rewrite <- Hbs.
    + intros [Hb | Hin]; [| exact (Hn Hin)].
      subst b. discriminate E.
Qed.

Lemma c_str_complete (s : string) (rest : list byte) :
  ~ In Byte.x00 (list_byte_of_string s) ->
  c_str (list_byte_of_string s ++ Byte.x00 :: rest) = Some s.
Proof.
  induction s as [| a s IH]; intros Hn.
  - reflexivity.
  - rewrite bytes_of_String in *. cbn [app c_str].
    destruct (Byte.eqb (byte_of_ascii a) Byte.x00) eqn:E.
    + apply Byte.byte_dec_bl in E. exfalso. apply Hn. now left.
    + rewrite IH by (intros Hin; apply Hn; now right).
      simpl. now rewrite ascii_of_byte_of_ascii.
Qed.

Lemma le_bytes_length (n : nat) (v : Z) : List.length (le_bytes n v) = n.
Proof.
  revert v. induction n as [| k IH]; intros v; [reflexivity |].
  cbn [le_bytes]. destruct (Byte.of_N _); simpl; now rewrite IH.
Qed.

Lemma le_value_le_bytes (n : nat) (v : Z) :
  le_value (le_bytes n v) = v mod 256 ^ Z.of_nat n.
Proof.
  revert v. induction n as [| k IH]; intros v.
  - simpl. now rewrite Z.mod_1_r.
  - cbn [le_bytes].
    assert (Hm : 0 <= v mod 256 < 256) by (apply Z.mod_pos_bound; lia).
    pose proof (Byte.to_of_N_option_map (Z.to_N (v mod 256))) as Hb.
    destruct (N.leb_spec (Z.to_N (v mod 256)) 255) as [_ | Hgt]; [| lia].
    destruct (Byte.of_N (Z.to_N (v mod 256))) as [b |]; [| discriminate Hb].
    simpl in Hb. inversion Hb as [Hb'].
    cbn [le_value]. rewrite Hb', IH, Z2N.id by lia.
    rewrite Nat2Z.inj_succ, Z.pow_succ_r by lia.
    symmetry. apply Z.rem_mul_r; [lia |]. apply Z.pow_pos_nonneg; lia.
Qed.

Section Layout.

Variable L : BF_layout.

Local Abbreviation GetPreviousOffset := (GetPreviousOffset L).
Local Abbreviation GetBranchToPhys := (GetBranchToPhys L).

(** [GetBranchToPhys] returns [s] exactly when the payload holds, from the
    offset of [branchToPhys] on, the characters of [s], none of them NUL,
    and then a NUL byte: the string ends at the first NUL wherever it
    stands, not at the end of the member. *)
Theorem GetBranchToPhys_first_NUL (o : SSBranchFileObject) (s : string) :
  GetBranchToPhys o = Some s
  <-> (0 <= offsetof_branchToPhys L <= Z.of_nat (List.length (GetData o))
       /\ exists rest,
            skipn (Z.to_nat (offsetof_branchToPhys L)) (GetData o)
            = list_byte_of_string s ++ Byte.x00 :: rest
            /\ ~ In Byte.x00 (list_byte_of_string s)).
Proof.
  unfold SSBranchFileObjectH.GetBranchToPhys, read_c_str.
  destruct (Z.leb_spec 0 (offsetof_branchToPhys L)) as [H0 | H0];
    destruct (Z.leb_spec (offsetof_branchToPhys L)
                (Z.of_nat (List.length (GetData o)))) as [H1 | H1];
    cbn [andb]; split;
    try (intros H; discriminate H); try (intros [? _]; lia).
  - intros H. split; [lia |]. now apply c_str_sound.
  - intros (_ & rest & Hs & Hn). rewrite Hs. now apply c_str_complete.
Qed.

(** The string [GetBranchToPhys] returns is shorter than the part of the
    payload that starts at the offset of [branchToPhys]. *)
Theorem GetBranchToPhys_length (o : SSBranchFileObject) (s : string) :
  GetBranchToPhys o = Some s ->
  Z.of_nat (String.length s)
  < Z.of_nat (List.length (GetData o)) - offsetof_branchToPhys L.
Proof.
  unfold SSBranchFileObjectH.GetBranchToPhys, read_c_str.
  destruct (Z.leb_spec 0 (offsetof_branchToPhys L)) as [H0 | H0];
    destruct (Z.leb_spec (offsetof_branchToPhys L)
                (Z.of_nat (List.length (GetData o)))) as [H1 | H1];
    cbn [andb]; intros H; try discriminate H.
  apply c_str_sound in H. destruct H as (rest & Hs & _).
  apply (f_equal (@List.length byte)) in Hs.
  rewrite length_skipn, length_app, bytes_length in Hs. simpl in Hs. lia.
Qed.

(** What is stored is what is read: when the four bytes at the offset of
    [previousOffset] are the little-endian bytes of [v], [GetPreviousOffset]
    is [v], whatever the rest of the payload and of the record is. *)
Theorem GetPreviousOffset_stored (o : SSBranchFileObject) (pre post : list byte)
        (v : Z) :
  0 <= v < 2 ^ 32 ->
  Z.of_nat (List.length pre) = offsetof_previousOffset L ->
  GetData o = pre ++ le_bytes 4 v ++ post ->
  GetPreviousOffset o = Some v.
Proof.
  intros Hv Hoff Hd.
  unfold SSBranchFileObjectH.GetPreviousOffset, read_ulong32.
  rewrite Hd, <- Hoff.
  replace 4 with (Z.of_nat (List.length (le_bytes 4 v)))
    by (now rewrite le_bytes_length).
  rewrite read_bytes_app. cbn [option_map].
  rewrite le_value_le_bytes. f_equal. apply Z.mod_small.
  change (256 ^ Z.of_nat 4) with (2 ^ 32). exact Hv.
Qed.

End Layout.

Lemma GetBranchToPhys_length_witness :
  GetBranchToPhys Sample.BF Cases.long_name = Some "AAAAAAAA"
  /\ Z.of_nat (String.length "AAAAAAAA")
     < Z.of_nat (List.length (GetData Cases.long_name))
       - offsetof_branchToPhys Sample.BF.
Proof.
  assert (H : GetBranchToPhys Sample.BF Cases.long_name = Some "AAAAAAAA")
    by (vm_compute; reflexivity).
  split; [exact H |].
  exact (GetBranchToPhys_length Sample.BF Cases.long_name "AAAAAAAA" H).
Defined.

Lemma GetPreviousOffset_stored_witness :
  0 <= 16 < 2 ^ 32
  /\ Z.of_nat (List.length (@nil byte)) = offsetof_previousOffset Sample.BF
  /\ GetPreviousOffset Sample.BF Cases.stored = Some 16.
Proof.
  assert (Hv : 0 <= 16 < 2 ^ 32) by (split; [discriminate | reflexivity]).
  assert (Ho : Z.of_nat (List.length (@nil byte)) = offsetof_previousOffset Sample.BF)
    by reflexivity.
  split; [exact Hv | split; [exact Ho |]].
  exact (GetPreviousOffset_stored Sample.BF Cases.stored []
           (Sample.bytes "AAAAA" ++ Sample.zeros 1) 16 Hv Ho eq_refl).
Defined.

End AccessorProps.

(** ** The chain of branch-file records *)

Module ChainProps.
Import Mem MemFacts SSRecordH SSFiles SSBranchFileObjectH Layout.
Import ReaderProps AccessorProps.

Lemma read_ulong32_stored (front back : list byte) (v : Z) :
  0 <= v < 2 ^ 32 ->
  read_ulong32 (front ++ le_bytes 4 v ++ back) (Z.of_nat (List.length front))
  = Some v.
Proof.
  intros Hv. unfold read_ulong32.
  replace 4 with (Z.of_nat (List.length (le_bytes 4 v)))
    by (now rewrite le_bytes_length).
  rewrite read_bytes_app. cbn [option_map].
  rewrite le_value_le_bytes. f_equal. apply Z.mod_small.
  change (256 ^ Z.of_nat 4) with (2 ^ 32). exact Hv.
Qed.

Section Layout.

Variable sizeof_header : Z.
Variable decode_header : list byte -> RECORD_HEADER.
Variable L : BF_layout.

Local Abbreviation GetPreviousOffset := (GetPreviousOffset L).
Local Abbreviation new_SSBranchFileObject := (new_SSBranchFileObject L).
Local Abbreviation GetPrevious := (GetPrevious sizeof_header decode_header L).
Local Abbreviation walk := (walk sizeof_header decode_header L).
Local Abbreviation read_record := (read_record sizeof_header decode_header).
Local Abbreviation entry_ok := (entry_ok sizeof_header decode_header).

(** A terminal object has no predecessor. *)
Lemma GetPrevious_terminal (o : SSBranchFileObject) :
  GetPreviousOffset o = Some (GetOffset (m_pRecord o)) ->
  GetPrevious o = Some NotFound.
Proof.
  intros Hp. unfold SSBranchFileObjectH.GetPrevious, is_terminal.
  rewrite Hp. now rewrite Z.eqb_refl.
Qed.

Lemma GetPrevious_found (o : SSBranchFileObject) (p : Z) (f : SSFileImp)
      (r : SSRecord) :
  GetPreviousOffset o = Some p ->
  p <> GetOffset (m_pRecord o) ->
  GetFileImp (m_pRecord o) = Some f ->
  read_record f p = Rec r ->
  StringToType (type (m_Header r)) = eBranchFile ->
  GetPrevious o = Some (Found (new_SSBranchFileObject r)).
Proof.
  intros Hp Hne Hf Hr Hk. unfold SSBranchFileObjectH.GetPrevious, is_terminal.
  rewrite Hp. destruct (Z.eqb_spec p (GetOffset (m_pRecord o))); [contradiction |].
  now rewrite Hf, Hr, Hk.
Qed.

(** Anything else at [previousOffset] breaks the chain. *)
Lemma GetPrevious_broken (o : SSBranchFileObject) (p : Z) (f : SSFileImp) :
  GetPreviousOffset o = Some p ->
  p <> GetOffset (m_pRecord o) ->
  GetFileImp (m_pRecord o) = Some f ->
  (forall r, read_record f p = Rec r ->
             StringToType (type (m_Header r)) <> eBranchFile) ->
  GetPrevious o = Some (BrokenChain p).
Proof.
  intros Hp Hne Hf Hn. unfold SSBranchFileObjectH.GetPrevious, is_terminal.
  rewrite Hp. destruct (Z.eqb_spec p (GetOffset (m_pRecord o))); [contradiction |].
  rewrite Hf. destruct (read_record f p) as [| ? | r] eqn:E; try reflexivity.
  specialize (Hn r eq_refl).
  destruct (StringToType (type (m_Header r))); try reflexivity. congruence.
Qed.

(** A walk takes no more hops than it is given. *)
Lemma walk_bounded (hops : nat) (o : SSBranchFileObject)
      (l : list SSBranchFileObject) (stop : resolution) :
  walk hops o = Some (l, stop) -> (List.length l <= hops)%nat.
Proof.
  revert o l stop. induction hops as [| k IH]; intros o l stop H;
    cbn [SSBranchFileObjectH.walk] in H;
    destruct (GetPrevious o) as [[o' | | p | p] |]; try discriminate H;
    try (inversion H; subst; simpl; lia).
  destruct (walk k o') as [[l' stop'] |] eqn:E; [| discriminate H].
  cbn [option_map fst snd] in H. inversion H; subst.
  apply IH in E. simpl. lia.
Qed.

(** C8.  A branch-file object lies in a file that holds, at an offset in
    front of the object's own, a well-formed branch-file record, and the
    [previousOffset] stored in the object's payload is that offset.  Then
    [GetPreviousOffset] decodes that offset and [GetPrevious] finds the
    object of that record: its own offset is the [previousOffset], its
    payload is the record's, and it is in the same file. *)
Theorem GetPrevious_round_trip (o : SSBranchFileObject)
        (pre suf front back : list byte) (e : entry) :
  entry_ok e = true ->
  StringToType (type (decode_header (fst e))) = eBranchFile ->
  GetFileImp (m_pRecord o) = Some (pre ++ fst e ++ snd e ++ suf) ->
  Z.of_nat (List.length pre) < GetOffset (m_pRecord o) ->
  Z.of_nat (List.length pre) < 2 ^ 32 ->
  Z.of_nat (List.length front) = offsetof_previousOffset L ->
  GetData o = front ++ le_bytes 4 (Z.of_nat (List.length pre)) ++ back ->
  exists o',
    GetPrevious o = Some (Found o')
    /\ GetPreviousOffset o = Some (Z.of_nat (List.length pre))
    /\ GetOffset (m_pRecord o') = Z.of_nat (List.length pre)
    /\ GetBuffer (m_pRecord o') = snd e
    /\ GetFileImp (m_pRecord o') = GetFileImp (m_pRecord o).
Proof.
  intros Hok Hk Hf Hbefore Hfit Hfront Hdata.
  assert (Hp : GetPreviousOffset o = Some (Z.of_nat (List.length pre))).
  { unfold SSBranchFileObjectH.GetPreviousOffset. rewrite Hdata, <- Hfront.
    apply read_ulong32_stored. lia. }
  pose proof (read_record_entry sizeof_header decode_header pre suf e Hok) as Hr.
  exists (new_SSBranchFileObject
            (record_at decode_header (pre ++ fst e ++ snd e ++ suf)
               (Z.of_nat (List.length pre)) e)).
  split; [| split; [exact Hp | split; [reflexivity | split; [reflexivity |]]]].
  - apply (GetPrevious_found o _ _ _ Hp ltac:(lia) Hf Hr). exact Hk.
  - rewrite Hf. reflexivity.
Qed.

End Layout.

Lemma GetPrevious_round_trip_witness :
  entry_ok Sample.sizeof_header Sample.decode_header (Cases.bf_entry 0 "BAAAA")
  = true
  /\ Z.of_nat (List.length (entry_bytes (Cases.bf_entry 0 "AAAAA")))
     < GetOffset (m_pRecord (Cases.chain3_object 2 32))
  /\ exists o',
       GetPrevious Sample.sizeof_header Sample.decode_header Sample.BF
         (Cases.chain3_object 2 32) = Some (Found o')
       /\ GetOffset (m_pRecord o') = 16.
Proof.
  assert (H1 : entry_ok Sample.sizeof_header Sample.decode_header
                 (Cases.bf_entry 0 "BAAAA") = true) by (vm_compute; reflexivity).
  assert (H2 : StringToType
                 (type (Sample.decode_header (fst (Cases.bf_entry 0 "BAAAA"))))
               = eBranchFile) by (vm_compute; reflexivity).
  assert (H3 : GetFileImp (m_pRecord (Cases.chain3_object 2 32))
               = Some (entry_bytes (Cases.bf_entry 0 "AAAAA")
                       ++ fst (Cases.bf_entry 0 "BAAAA")
                       ++ snd (Cases.bf_entry 0 "BAAAA")
                       ++ entry_bytes (Cases.bf_entry 16 "CAAAA")))
    by (vm_compute; reflexivity).
  assert (H4 : Z.of_nat (List.length (entry_bytes (Cases.bf_entry 0 "AAAAA")))
               < GetOffset (m_pRecord (Cases.chain3_object 2 32)))
    by (vm_compute; reflexivity).
  assert (H5 : Z.of_nat (List.length (entry_bytes (Cases.bf_entry 0 "AAAAA")))
               < 2 ^ 32) by (vm_compute; reflexivity).
  assert (H6 : Z.of_nat (List.length (@nil byte))
               = offsetof_previousOffset Sample.BF) by reflexivity.
  assert (H7 : GetData (Cases.chain3_object 2 32)
               = [] ++ le_bytes 4
                         (Z.of_nat (List.length
                                      (entry_bytes (Cases.bf_entry 0 "AAAAA"))))
                    ++ (Sample.bytes "CAAAA" ++ Sample.zeros 1))
    by (vm_compute; reflexivity).
  split; [exact H1 | split; [exact H4 |]].
  destruct (GetPrevious_round_trip Sample.sizeof_header Sample.decode_header
              Sample.BF (Cases.chain3_object 2 32) _ _ _ _ _
              H1 H2 H3 H4 H5 H6 H7) as (o' & Hg & _ & Ho & _).
  exists o'. split; [exact Hg |]. rewrite Ho. vm_compute. reflexivity.
Defined.

(** The self-terminal record of the specification's scenario has no
    predecessor. *)
Example GetPrevious_self_terminal :
  GetPrevious Sample.sizeof_header Sample.decode_header Sample.BF
    (new_SSBranchFileObject Sample.BF Sample.chained_first)
  = Some NotFound.
Proof. vm_compute. reflexivity. Qed.

(** The ancestry of the third record of [Cases.chain3_file]: the second,
    then the first, which is terminal. *)
Example ancestry_chain3 :
  option_map
    (fun a => (map (fun o => GetOffset (m_pRecord o)) (fst a), snd a))
    (ancestry Sample.sizeof_header Sample.decode_header Sample.BF
       (Cases.chain3_object 2 32))
  = Some ([16; 0], NotFound).
Proof. vm_compute. reflexivity. Qed.

(** On two records that point at each other the walk gives up after the
    hops the size of the file allows. *)
Example ancestry_cycle :
  option_map
    (fun a => (map (fun o => GetOffset (m_pRecord o)) (fst a), snd a))
    (ancestry Sample.sizeof_header Sample.decode_header Sample.BF
       Cases.cycle_object)
  = Some ([16; 0; 16; 0; 16], ChainTooLong 0).
Proof. vm_compute. reflexivity. Qed.

(** A [previousOffset] behind the end of the file breaks the chain. *)
Example GetPrevious_out_of_file :
  GetPrevious Sample.sizeof_header Sample.decode_header Sample.BF
    {| m_pRecord :=
         {| m_Header := {| type := tag_of "BF"; payload_length := 10 |};
            m_pBuffer := le_bytes 4 4096 ++ Sample.bytes "AAAAA" ++ Sample.zeros 1;
            m_Len := 10;
            m_Offset := 16;
            m_FileImpPtr := Some Cases.chain3_file |};
       invalid := false |}
  = Some (BrokenChain 4096).
Proof. vm_compute. reflexivity. Qed.

End ChainProps.
